(** * Lingobabe front end: chat interface and welcome survey

    A shallow embedding of the two stateful React components of the
    repository,

    - [ChatInterface]  (src/components/ChatInterface/index.tsx), and
    - [DailyGoalPage]  (src/app/welcome-survey/pages/DailyGoalPage.tsx),
      together with the mount effect of [SuccessPage],

    as state transformers.  A component instance is a record holding the
    value of every [useState] hook, the values read from the store and
    the providers, and the part of the browser [window] the component
    talks to (local storage, router, timers, the injected token manager).
    Every handler of the source is a function on that record.  A handler
    that awaits a promise takes the way the promise settles as an
    argument.  [handleSend], which other events can overtake while it
    waits for the audio, is given twice: as the call that runs through,
    and cut at its [await] into the part before and the part after.
    Everything a handler does to the outside world (requests, storage
    writes, router pushes, console output) is appended to a
    chronological log.

    Numbers are integers ([Z]); a JavaScript [string | undefined] is an
    [option string]; truthiness is spelled out where the source relies
    on it.

    Local storage.  On the survey page a write may throw: the state of
    the page says for which keys [setItem] goes through, and
    [handleSubmit] follows the source through its two [try] blocks in
    either case.  In the chat interface writes to local storage are
    taken to succeed and the actions of the chat store to return; under
    these no statement of the outer [try] of [handleSend] throws, so its
    [catch] is not reached and has no counterpart below.  The message
    statistics, which no handler reads, are left out. *)

From Stdlib Require Import ZArith String Ascii List Bool Lia DecimalString.
From stdpp Require Import base option list gmap strings.

Open Scope Z_scope.
Set Warnings "-register-all".

(** ** JavaScript values *)

(** Truthiness of a string: only the empty string is falsy. *)
Definition truthy_s (s : string) : bool := negb (String.eqb s "").

(** Truthiness of an optional string ([undefined] and [""] are falsy). *)
Definition truthy (o : option string) : bool :=
  match o with
  | Some s => truthy_s s
  | None => false
  end.

(** [a || b] on optional strings. *)
Definition js_or (a b : option string) : option string :=
  if truthy a then a else b.

(** [n || d] on an optional number: [undefined] and [0] are falsy. *)
Definition num_or (n : option Z) (d : Z) : Z :=
  match n with
  | Some 0 => d
  | Some v => v
  | None => d
  end.

(** [Number.prototype.toString] on an integer. *)
Definition Number_toString (z : Z) : string :=
  NilZero.string_of_int (Z.to_int z).

(** JSON values, as produced by [JSON.parse] and consumed by
    [JSON.stringify]. *)
Inductive Json :=
| JNull
| JBool (b : bool)
| JNum (n : Z)
| JStr (s : string)
| JArr (items : list Json)
| JObj (fields : list (string * Json)).

(** [obj[k] = v] on the property list of an object: an existing property
    keeps its position, a new one goes last. *)
Fixpoint assign_field (k : string) (v : Json) (fs : list (string * Json))
  : list (string * Json) :=
  match fs with
  | [] => [(k, v)]
  | (k', v') :: rest =>
      if String.eqb k' k then (k, v) :: rest
      else (k', v') :: assign_field k v rest
  end.

(** [j.k = v] in strict mode.  [None] is the [TypeError] raised on a
    primitive or on [null]; a property set on an array is not an index
    and does not appear in its JSON text. *)
Definition set_property (k : string) (v : Json) (j : Json) : option Json :=
  match j with
  | JObj fs => Some (JObj (assign_field k v fs))
  | JArr xs => Some (JArr xs)
  | JNull | JBool _ | JNum _ | JStr _ => None
  end.

(** The built-ins of the JavaScript runtime the components call.
    [JSON_parse] returns [None] where [JSON.parse] throws. *)
Class Runtime := {
  trim : string → string;
  toLowerCase : string → string;
  JSON_stringify : Json → string;
  JSON_parse : string → option Json;
}.

(** ** The browser window *)

Record Request := {
  url : string;
  method : string;
  headers : list (string * string);
  body : string;
  cache : option string;
}.

(** Observable effects, in the order they happen. *)
Inductive Effect :=
| Fetch (r : Request)
| StorageSet (k v : string)
| StorageRemove (k : string)
| RouterPush (path : string)
| TokenManagerCall (name arg : string)
| ConsoleError (what : string)
| ConsoleWarn (what : string).

(** [window.tokenManager], an injected object of which the components
    read the [initialized] flag. *)
Record TokenManager := { initialized : bool }.

Record Window := {
  tokenManager : option TokenManager;
  localStorage : gmap string string;
  location : string;
  clock : Z;
  log : list Effect;
}.

Definition emit (e : Effect) (w : Window) : Window :=
  {| tokenManager := tokenManager w; localStorage := localStorage w;
     location := location w; clock := clock w; log := log w ++ [e] |}.

Definition setItem (k v : string) (w : Window) : Window :=
  {| tokenManager := tokenManager w; localStorage := <[k := v]> (localStorage w);
     location := location w; clock := clock w; log := log w ++ [StorageSet k v] |}.

Definition removeItem (k : string) (w : Window) : Window :=
  {| tokenManager := tokenManager w; localStorage := delete k (localStorage w);
     location := location w; clock := clock w; log := log w ++ [StorageRemove k] |}.

Definition router_push (path : string) (w : Window) : Window :=
  {| tokenManager := tokenManager w; localStorage := localStorage w;
     location := path; clock := clock w; log := log w ++ [RouterPush path] |}.

Definition set_clock (t : Z) (w : Window) : Window :=
  {| tokenManager := tokenManager w; localStorage := localStorage w;
     location := location w; clock := t; log := log w |}.

(** [window.tokenManager?.initialized] *)
Definition tokenManager_initialized (w : Window) : bool :=
  match tokenManager w with
  | Some tm => initialized tm
  | None => false
  end.

(** ** Timers

    [setTimeout(f, d)] registers the callback [f] with the deadline
    [clock + d].  Callbacks that are due run in the order of their
    deadlines, and in the order of registration when deadlines agree. *)

Record Timer (C : Type) := { deadline : Z; callback : C }.
Arguments deadline {C} _.
Arguments callback {C} _.
Arguments Build_Timer {C} _ _.

Section Timers.
Context {C : Type}.

Fixpoint insert_timer (t : Timer C) (l : list (Timer C)) : list (Timer C) :=
  match l with
  | [] => [t]
  | u :: rest =>
      if deadline t <=? deadline u then t :: u :: rest
      else u :: insert_timer t rest
  end.

Definition sort_timers (l : list (Timer C)) : list (Timer C) :=
  foldr insert_timer [] l.

(** The callbacks that have run once the clock shows [t], in the order
    they ran, and the timers still pending then. *)
Definition due_timers (t : Z) (l : list (Timer C)) : list (Timer C) :=
  sort_timers (filter (λ u, deadline u ≤ t) l).

Definition pending_timers (t : Z) (l : list (Timer C)) : list (Timer C) :=
  filter (λ u, ¬ deadline u ≤ t) l.
End Timers.

(** * The chat interface
    src/components/ChatInterface/index.tsx *)

Module ChatInterface.

(** ** Chat data ([@/types/chat], [@/data/characters]) *)

Inductive Role := User | Assistant.

(** The localized text fields of a message. *)
Record MessageContent := {
  english : option string;
  chinese : option string;
  pinyin : option string;
  japanese : option string;
  romaji : option string;
  korean : option string;
  romanized : option string;
  spanish : option string;
  video : option string;
}.

(** A reply the user can choose.  [text] groups the nine localized
    fields of the option, the ones [handleSend] copies one by one into
    the user message.  [points] is [None] when [typeof points] is not
    ['number']. *)
Record ChatOption := {
  text : MessageContent;
  points : option Z;
  response : option MessageContent;
}.

Record Scene := { options : list ChatOption }.

Record Character := {
  name : string;
  language : string;
  image : string;
  scenes : gmap Z Scene;
}.

Record ChatMessage := {
  role : Role;
  content : MessageContent;
  timestamp : option Z;
}.

(** What the component reads from [useChatStore()]. *)
Record Store := {
  selectedCharacter : option string;
  messages : list ChatMessage;
  happiness : gmap string Z;
  currentScene : Z;
}.

(** The modules the component imports and this development does not
    define: the character table with its validity test, and the actions
    of the chat store. *)
Class ChatModules := {
  characters : string → option Character;
  isValidCharacterId : string → bool;
  addMessage : Role → MessageContent → Store → Store;
  updateHappiness : string → Z → Store → Store;
  setScene : Z → Store → Store;
}.

(** ** Component state *)

(** The callbacks the component hands to [setTimeout]. *)
Inductive Callback :=
| ClearError               (* setShowError(false); setError(null) *)
| AdvanceScene (n : Z).    (* actions.setScene(n); setIsTransitioning(false) *)

Record State := {
  (* useChatStore(), useWeb3() *)
  store : Store;
  address : option string;
  (* useState *)
  input : string;
  audioPlaying : bool;
  isTransitioning : bool;
  showEndPopup : bool;
  showOptions : bool;
  currentVideo : string;
  error : option string;
  showError : bool;
  hasAccess : bool;
  isCheckingAccess : bool;
  (* the browser *)
  window : Window;
  timers : list (Timer Callback);
}.

Definition with_store (v : Store) (s : State) : State :=
  {| store := v; address := address s; input := input s;
     audioPlaying := audioPlaying s; isTransitioning := isTransitioning s;
     showEndPopup := showEndPopup s; showOptions := showOptions s;
     currentVideo := currentVideo s; error := error s;
     showError := showError s; hasAccess := hasAccess s;
     isCheckingAccess := isCheckingAccess s; window := window s;
     timers := timers s |}.

Definition with_address (v : option string) (s : State) : State :=
  {| store := store s; address := v; input := input s;
     audioPlaying := audioPlaying s; isTransitioning := isTransitioning s;
     showEndPopup := showEndPopup s; showOptions := showOptions s;
     currentVideo := currentVideo s; error := error s;
     showError := showError s; hasAccess := hasAccess s;
     isCheckingAccess := isCheckingAccess s; window := window s;
     timers := timers s |}.

Definition setInput (v : string) (s : State) : State :=
  {| store := store s; address := address s; input := v;
     audioPlaying := audioPlaying s; isTransitioning := isTransitioning s;
     showEndPopup := showEndPopup s; showOptions := showOptions s;
     currentVideo := currentVideo s; error := error s;
     showError := showError s; hasAccess := hasAccess s;
     isCheckingAccess := isCheckingAccess s; window := window s;
     timers := timers s |}.

Definition setAudioPlaying (v : bool) (s : State) : State :=
  {| store := store s; address := address s; input := input s;
     audioPlaying := v; isTransitioning := isTransitioning s;
     showEndPopup := showEndPopup s; showOptions := showOptions s;
     currentVideo := currentVideo s; error := error s;
     showError := showError s; hasAccess := hasAccess s;
     isCheckingAccess := isCheckingAccess s; window := window s;
     timers := timers s |}.

Definition setIsTransitioning (v : bool) (s : State) : State :=
  {| store := store s; address := address s; input := input s;
     audioPlaying := audioPlaying s; isTransitioning := v;
     showEndPopup := showEndPopup s; showOptions := showOptions s;
     currentVideo := currentVideo s; error := error s;
     showError := showError s; hasAccess := hasAccess s;
     isCheckingAccess := isCheckingAccess s; window := window s;
     timers := timers s |}.

Definition setShowEndPopup (v : bool) (s : State) : State :=
  {| store := store s; address := address s; input := input s;
     audioPlaying := audioPlaying s; isTransitioning := isTransitioning s;
     showEndPopup := v; showOptions := showOptions s;
     currentVideo := currentVideo s; error := error s;
     showError := showError s; hasAccess := hasAccess s;
     isCheckingAccess := isCheckingAccess s; window := window s;
     timers := timers s |}.

Definition setShowOptions (v : bool) (s : State) : State :=
  {| store := store s; address := address s; input := input s;
     audioPlaying := audioPlaying s; isTransitioning := isTransitioning s;
     showEndPopup := showEndPopup s; showOptions := v;
     currentVideo := currentVideo s; error := error s;
     showError := showError s; hasAccess := hasAccess s;
     isCheckingAccess := isCheckingAccess s; window := window s;
     timers := timers s |}.

Definition setCurrentVideo (v : string) (s : State) : State :=
  {| store := store s; address := address s; input := input s;
     audioPlaying := audioPlaying s; isTransitioning := isTransitioning s;
     showEndPopup := showEndPopup s; showOptions := showOptions s;
     currentVideo := v; error := error s; showError := showError s;
     hasAccess := hasAccess s; isCheckingAccess := isCheckingAccess s;
     window := window s; timers := timers s |}.

Definition setError (v : option string) (s : State) : State :=
  {| store := store s; address := address s; input := input s;
     audioPlaying := audioPlaying s; isTransitioning := isTransitioning s;
     showEndPopup := showEndPopup s; showOptions := showOptions s;
     currentVideo := currentVideo s; error := v; showError := showError s;
     hasAccess := hasAccess s; isCheckingAccess := isCheckingAccess s;
     window := window s; timers := timers s |}.

Definition setShowError (v : bool) (s : State) : State :=
  {| store := store s; address := address s; input := input s;
     audioPlaying := audioPlaying s; isTransitioning := isTransitioning s;
     showEndPopup := showEndPopup s; showOptions := showOptions s;
     currentVideo := currentVideo s; error := error s; showError := v;
     hasAccess := hasAccess s; isCheckingAccess := isCheckingAccess s;
     window := window s; timers := timers s |}.

Definition setHasAccess (v : bool) (s : State) : State :=
  {| store := store s; address := address s; input := input s;
     audioPlaying := audioPlaying s; isTransitioning := isTransitioning s;
     showEndPopup := showEndPopup s; showOptions := showOptions s;
     currentVideo := currentVideo s; error := error s;
     showError := showError s; hasAccess := v;
     isCheckingAccess := isCheckingAccess s; window := window s;
     timers := timers s |}.

Definition setIsCheckingAccess (v : bool) (s : State) : State :=
  {| store := store s; address := address s; input := input s;
     audioPlaying := audioPlaying s; isTransitioning := isTransitioning s;
     showEndPopup := showEndPopup s; showOptions := showOptions s;
     currentVideo := currentVideo s; error := error s;
     showError := showError s; hasAccess := hasAccess s;
     isCheckingAccess := v; window := window s; timers := timers s |}.

Definition with_window (v : Window) (s : State) : State :=
  {| store := store s; address := address s; input := input s;
     audioPlaying := audioPlaying s; isTransitioning := isTransitioning s;
     showEndPopup := showEndPopup s; showOptions := showOptions s;
     currentVideo := currentVideo s; error := error s;
     showError := showError s; hasAccess := hasAccess s;
     isCheckingAccess := isCheckingAccess s; window := v;
     timers := timers s |}.

Definition with_timers (v : list (Timer Callback)) (s : State) : State :=
  {| store := store s; address := address s; input := input s;
     audioPlaying := audioPlaying s; isTransitioning := isTransitioning s;
     showEndPopup := showEndPopup s; showOptions := showOptions s;
     currentVideo := currentVideo s; error := error s;
     showError := showError s; hasAccess := hasAccess s;
     isCheckingAccess := isCheckingAccess s; window := window s;
     timers := v |}.

Definition in_window (f : Window → Window) (s : State) : State :=
  with_window (f (window s)) s.

Definition in_store (f : Store → Store) (s : State) : State :=
  with_store (f (store s)) s.

(** [setTimeout(cb, delay)] *)
Definition setTimeout (cb : Callback) (delay : Z) (s : State) : State :=
  with_timers (timers s ++ [Build_Timer (clock (window s) + delay) cb]) s.

(** The state of a freshly mounted component: every hook at the default
    given to [useState]. *)
Definition mount (st : Store) (addr : option string) (w : Window) : State :=
  {| store := st; address := addr; input := ""; audioPlaying := false;
     isTransitioning := false; showEndPopup := false; showOptions := false;
     currentVideo := ""; error := None; showError := false;
     hasAccess := false; isCheckingAccess := true;
     window := w; timers := [] |}.

(** Ways the awaited promises settle. *)
Inductive AccessOutcome :=
| AccessResolved (hasAccess : bool)
| AccessRejected (message : option string).

Inductive TtsOutcome :=
| FetchRejected      (* fetch rejects *)
| ResponseNotOk      (* !response.ok *)
| BufferRejected     (* response.arrayBuffer() rejects *)
| PlayRejected       (* audio.play() rejects *)
| PlayStarted.       (* audio.play() resolves *)

Definition tts_failed (o : TtsOutcome) : bool :=
  match o with
  | PlayStarted => false
  | _ => true
  end.

(** Whether [tokenManager.markChatCompleted] returns or throws. *)
Inductive CallOutcome := Returned | Thrown.

Section Handlers.
Context `{!Runtime} `{!ChatModules}.

(** ** Values derived at render *)

(** [selectedCharacter && isValidCharacterId(selectedCharacter)
      ? characters[selectedCharacter] : null] *)
Definition character (s : State) : option Character :=
  match selectedCharacter (store s) with
  | Some c => if truthy_s c && isValidCharacterId c then characters c else None
  | None => None
  end.

(** [character?.scenes[currentScene]?.options || []] *)
Definition currentSceneOptions (s : State) : list ChatOption :=
  match character s with
  | Some ch =>
      match scenes ch !! currentScene (store s) with
      | Some sc => options sc
      | None => []
      end
  | None => []
  end.

(** [character?.language || 'chinese'] *)
Definition tts_language (ch : option Character) : string :=
  match ch with
  | Some c => if truthy_s (language c) then language c else "chinese"
  | None => "chinese"
  end.

(** [m.chinese || m.japanese || m.korean || m.spanish] *)
Definition primaryText (m : MessageContent) : option string :=
  js_or (chinese m) (js_or (japanese m) (js_or (korean m) (spanish m))).

Definition accessKey (addr sel : string) : string :=
  "character_access_" +:+ toLowerCase addr +:+ "_" +:+ sel.

Definition happinessKey (addr sel : string) : string :=
  "lingobabe_happiness_" +:+ toLowerCase addr +:+ "_" +:+ sel.

Definition sceneKey (addr sel : string) : string :=
  "scene_" +:+ sel +:+ "_" +:+ toLowerCase addr.

(** ** showErrorMessage *)

Definition showErrorMessage (message : string) (s : State) : State :=
  setTimeout ClearError 5000 (setShowError true (setError (Some message) s)).

(** What a timer callback does when it runs. *)
Definition run_callback (cb : Callback) (s : State) : State :=
  match cb with
  | ClearError => setError None (setShowError false s)
  | AdvanceScene n => setIsTransitioning false (in_store (setScene n) s)
  end.

(** The state once the clock shows [t]: the callbacks due by then have
    run in order. *)
Definition advance_to (t : Z) (s : State) : State :=
  in_window (set_clock (Z.max (clock (window s)) t))
    (foldl (λ st tm, run_callback (callback tm) st)
           (with_timers (pending_timers t (timers s)) s)
           (due_timers t (timers s))).

(** ** The access check (the first effect) *)

(** [!window.tokenManager?.initialized || !address || !selectedCharacter] *)
Definition access_guard_fails (s : State) : bool :=
  negb (tokenManager_initialized (window s))
  || negb (truthy (address s))
  || negb (truthy (selectedCharacter (store s))).

(** [checkAccess] up to its [await]. *)
Definition checkAccess_begin (s : State) : State :=
  if access_guard_fails s then
    setHasAccess false (setIsCheckingAccess false s)
  else
    match selectedCharacter (store s) with
    | Some sel =>
        in_window (emit (TokenManagerCall "checkAccess" sel))
          (setIsCheckingAccess true s)
    | None => setIsCheckingAccess true s
    end.

(** [checkAccess] from its [await] on; [addr] and [sel] are the wallet
    address and character the effect closed over. *)
Definition checkAccess_settle (addr sel : string) (o : AccessOutcome)
    (s : State) : State :=
  let s1 :=
    match o with
    | AccessResolved b =>
        let s' := setHasAccess b s in
        if negb b then in_window (removeItem (accessKey addr sel)) s' else s'
    | AccessRejected msg =>
        setHasAccess false
          (setError (js_or msg (Some "Failed to verify access status"))
             (in_window (emit (ConsoleError "Failed to check access:")) s))
    end in
  setIsCheckingAccess false s1.

(** One uninterrupted run of [checkAccess]. *)
Definition checkAccess (o : AccessOutcome) (s : State) : State :=
  if access_guard_fails s then checkAccess_begin s
  else
    match address s, selectedCharacter (store s) with
    | Some addr, Some sel => checkAccess_settle addr sel o (checkAccess_begin s)
    | _, _ => checkAccess_begin s
    end.

(** ** Window events (the second effect) and the access callback *)

Definition handleAccessChange (detail : option (string * bool)) (s : State)
  : State :=
  match detail with
  | Some (characterId, b) =>
      if bool_decide (Some characterId = selectedCharacter (store s))
      then setHasAccess b s else s
  | None => s
  end.

Definition handleChatCompleted (detail : option string) (s : State) : State :=
  match detail with
  | Some characterId =>
      if bool_decide (Some characterId = selectedCharacter (store s)) then
        let s1 := setHasAccess false s in
        match address s with
        | Some addr =>
            if truthy_s addr
            then in_window (removeItem (accessKey addr characterId)) s1
            else s1
        | None => s1
        end
      else s
  | None => s
  end.

Definition handleAccessGranted (s : State) : State := setHasAccess true s.

(** ** Audio *)

Definition tts_request (txt : string) (ch : option Character) : Request :=
  {| url := "/api/tts"; method := "POST";
     headers := [("Content-Type", "application/json")];
     body := JSON_stringify
               (JObj [("text", JStr txt); ("language", JStr (tts_language ch))]);
     cache := None |}.

(** [playAudio], with the [character] and [audioPlaying] of the render
    whose closure is running. *)
Definition playAudio_in (ch : option Character) (playing : bool)
    (txt : string) (o : TtsOutcome) (s : State) : State :=
  if negb (truthy_s txt) || playing then s
  else
    let s1 := setAudioPlaying true s in
    let s2 := in_window (emit (Fetch (tts_request txt ch))) s1 in
    if tts_failed o then
      showErrorMessage "Failed to play audio. Please try again."
        (setAudioPlaying false
           (in_window (emit (ConsoleError "Audio playback error:")) s2))
    else s2.

Definition playAudio (txt : string) (o : TtsOutcome) (s : State) : State :=
  playAudio_in (character s) (audioPlaying s) txt o s.

Definition handlePlayAudio (txt : string) (o : TtsOutcome) (s : State)
  : State :=
  if audioPlaying s then s else playAudio txt o s.

(** [audio.onended] *)
Definition audio_ended (s : State) : State := setAudioPlaying false s.

Definition handleOptionSelect (txt : string) (s : State) : State :=
  setShowOptions false (setInput txt s).

(** ** handleSend *)

(** [currentSceneOptions.find(opt => primaryText(opt) === input.trim())] *)
Definition findOption (inp : string) (opts : list ChatOption)
  : option ChatOption :=
  List.find (λ opt, bool_decide (primaryText (text opt) = Some inp)) opts.

(** The update of the access record kept in local storage:
    [accessData.completed = true; accessData.hasAccess = false]. *)
Definition revoke_stored_access (key : string) (s : State) : State :=
  match localStorage (window s) !! key with
  | Some stored =>
      if truthy_s stored then
        match JSON_parse stored with
        | Some accessData =>
            match set_property "completed" (JBool true) accessData
                    ≫= set_property "hasAccess" (JBool false) with
            | Some accessData' =>
                in_window (setItem key (JSON_stringify accessData')) s
            | None =>
                in_window (emit (ConsoleError "Error updating access data:")) s
            end
        | None =>
            in_window (emit (ConsoleError "Error updating access data:")) s
        end
      else s
  | None => s
  end.

(** The branch [currentScene >= 5]: the conversation ends. *)
Definition completeChat (mark : CallOutcome) (addr sel : string) (s : State)
  : State :=
  let s1 :=
    if tokenManager_initialized (window s) && truthy_s sel then
      let s2 := revoke_stored_access (accessKey addr sel) s in
      let s3 := in_window (emit (TokenManagerCall "markChatCompleted" sel)) s2 in
      match mark with
      | Returned => setHasAccess false s3
      | Thrown =>
          in_window (emit (ConsoleError "Error marking chat as completed:")) s3
      end
    else s in
  in_window (removeItem (sceneKey addr sel)) (setShowEndPopup true s1).

(** The branch [currentScene < 5]: [scene] is the scene counter of the
    render whose closure is running. *)
Definition beginTransition (scene : Z) (addr sel : string) (s : State)
  : State :=
  setTimeout (AdvanceScene (scene + 1)) 1000
    (in_window (setItem (sceneKey addr sel) (Number_toString (scene + 1)))
       (setIsTransitioning true s)).

(** The happiness update for an option worth [p] points; [happy] is
    the happiness table of the render whose closure is running. *)
Definition applyPoints (happy : gmap string Z) (addr sel : string) (p : Z)
    (s : State) : State :=
  let s1 := in_store (updateHappiness sel p) s in
  let currentHappiness := num_or (happy !! sel) 50 in
  let newHappiness := Z.min 100 (Z.max 0 (currentHappiness + p)) in
  in_window (setItem (happinessKey addr sel) (Number_toString newHappiness)) s1.

(** The assistant's reply to the chosen option. *)
Definition applyResponse (ch : option Character) (playing : bool)
    (tts : TtsOutcome) (r : MessageContent) (s : State) : State :=
  let s1 := in_store (addMessage Assistant r) s in
  let s2 :=
    match video r with
    | Some v => if truthy_s v then setCurrentVideo v s1 else s1
    | None => s1
    end in
  match primaryText r with
  | Some t => if truthy_s t then playAudio_in ch playing t tts s2 else s2
  | None => s2
  end.

(** The first half of the body of [handleSend] once [selectedOption]
    has been found: the user message, the happiness update and the
    assistant's reply.  [r] is the render whose closure is running:
    [happiness], [character] and [audioPlaying] are read from it. *)
Definition deliver (tts : TtsOutcome) (addr sel : string) (opt : ChatOption)
    (r : State) (s : State) : State :=
  let s1 := in_store (addMessage User (text opt)) s in
  let s2 :=
    match points opt with
    | Some p => applyPoints (happiness (store r)) addr sel p s1
    | None => s1
    end in
  match response opt with
  | Some resp => applyResponse (character r) (audioPlaying r) tts resp s2
  | None => s2
  end.

(** The whole body: after the exchange, the scene progresses or the
    conversation ends, on the [currentScene] of the render [r]; then the
    input is cleared and the options are hidden. *)
Definition sendOption (tts : TtsOutcome) (mark : CallOutcome)
    (addr sel : string) (opt : ChatOption) (r : State) (s : State) : State :=
  let s3 := deliver tts addr sel opt r s in
  let s4 :=
    if 5 <=? currentScene (store r) then completeChat mark addr sel s3
    else beginTransition (currentScene (store r)) addr sel s3 in
  setShowOptions false (setInput "" s4).

(** The guard of [handleSend] together with the lookup of the option:
    the option that will be sent, if any. *)
Definition selectedOption (s : State) : option ChatOption :=
  if truthy_s (trim (input s))
     && truthy (selectedCharacter (store s))
     && bool_decide (is_Some (character s))
     && negb (isTransitioning s)
     && truthy (address s)
  then findOption (trim (input s)) (currentSceneOptions s)
  else None.

(** A call of [handleSend] from its guard to its last line, as it runs
    when no other event reaches the component while the call waits for
    the audio.  The call cut at its [await] follows below
    ([handleSend_await], [handleSend_resume]).  The [catch] of the outer
    [try] is reached only when a store action or a storage write
    throws, which is taken not to happen here. *)
Definition handleSend (tts : TtsOutcome) (mark : CallOutcome) (s : State)
  : State :=
  match selectedCharacter (store s), character s, address s with
  | Some sel, Some _, Some addr =>
      if negb (truthy_s (trim (input s))) || negb (truthy_s sel)
         || isTransitioning s || negb (truthy_s addr)
      then showErrorMessage "Invalid input or connection state" s
      else
        match findOption (trim (input s)) (currentSceneOptions s) with
        | Some opt => sendOption tts mark addr sel opt s s
        | None => showErrorMessage "Please select a valid response option" s
        end
  | _, _, _ => showErrorMessage "Invalid input or connection state" s
  end.

(** ** The wait inside [handleSend]

    [handleSend] is an async function.  At [await playAudio(primaryText)]
    it hands control back with the input not yet cleared and the
    transition not yet begun; the component renders and handles other
    events, and the rest of the body runs once the audio request has
    settled, on the [currentScene], [selectedCharacter] and [address] of
    the render [r] in which the call was made and on whatever state [d]
    the component is in by then. *)








(** ** Navigation handlers *)

Definition language_path (s : State) : string :=
  match character s with
  | Some ch => language ch
  | None => "undefined"
  end.

(** [router.push(`/chat/${character?.language || ''}`)] *)
Definition handleReturnToSelection (s : State) : State :=
  in_window
    (router_push ("/chat/" +:+ match character s with
                               | Some ch => language ch
                               | None => ""
                               end)) s.

(** The header's [onBack]: [router.push(`/chat/${character?.language}`)] *)
Definition handleBack (s : State) : State :=
  in_window (router_push ("/chat/" +:+ language_path s)) s.

(** The button of the end popup. *)
Definition handleBackToTutors (s : State) : State :=
  in_window (router_push ("/chat/" +:+ language_path s))
    (setShowEndPopup false s).

(** ** Render *)

Record ChatViewProps := {
  headerName : string;
  headerHappiness : Z;
  banner : option string;
  videoSrc : option string;
  messageList : list ChatMessage;
  inputValue : string;
  sendDisabled : bool;
  optionsPanel : option (list ChatOption);
  endPopup : bool;
}.

(** The three trees the component returns: the 'Verifying access...'
    screen; the 'Access Required' screen, made of the
    [CharacterAccessControl] for the character and the 'Return to
    Selection' button; and the chat itself (header, banner, video,
    message list, input, options, end popup). *)
Inductive View :=
| VerifyingAccess
| AccessRequired (characterId : string) (characterName : string)
| ChatView (props : ChatViewProps).

Definition chatView (s : State) : ChatViewProps :=
  {| headerName := match character s with Some ch => name ch | None => "" end;
     headerHappiness :=
       num_or (happiness (store s)
                 !! match selectedCharacter (store s) with
                    | Some c => if truthy_s c then c else ""
                    | None => ""
                    end) 50;
     banner := if showError s && truthy (error s) then error s else None;
     videoSrc := if truthy_s (currentVideo s) then Some (currentVideo s) else None;
     messageList := messages (store s);
     inputValue := input s;
     sendDisabled := negb (truthy_s (trim (input s))) || isTransitioning s;
     optionsPanel :=
       if showOptions s && (0 <? Z.of_nat (length (currentSceneOptions s)))
       then Some (currentSceneOptions s) else None;
     endPopup := showEndPopup s |}.

Definition render (s : State) : View :=
  if isCheckingAccess s then VerifyingAccess
  else
    match selectedCharacter (store s) with
    | Some sel =>
        if negb (hasAccess s) && truthy_s sel then
          AccessRequired sel
            (match character s with
             | Some ch => if truthy_s (name ch) then name ch else "this character"
             | None => "this character"
             end)
        else ChatView (chatView s)
    | None => ChatView (chatView s)
    end.

(** ** The component as a transition system

    One event per effect, handler and change of the surroundings.
    [SendClicked] is the call of [handleSend] that runs through: the
    runs below let no other event in while a call waits for the audio.
    What happens when one does get in is stated on [handleSend_await]
    and [handleSend_resume]. *)

Inductive Event :=
| CheckAccessEffect
| CheckAccessSettled (addr sel : string) (o : AccessOutcome)
| AccessStatusChanged (detail : option (string * bool))
| ChatCompleted (detail : option string)
| AccessGranted
| ShowOptionsClicked
| OptionSelected (txt : string)
| PlayAudioClicked (txt : string) (o : TtsOutcome)
| AudioEnded
| SendClicked (tts : TtsOutcome) (mark : CallOutcome)
| BackClicked
| BackToTutorsClicked
| ReturnToSelectionClicked
| TimePasses (t : Z)
| StoreUpdated (st : Store)
| WalletUpdated (addr : option string)
| TokenManagerInjected (tm : option TokenManager).

Definition step (e : Event) (s : State) : State :=
  match e with
  | CheckAccessEffect => checkAccess_begin s
  | CheckAccessSettled addr sel o => checkAccess_settle addr sel o s
  | AccessStatusChanged d => handleAccessChange d s
  | ChatCompleted d => handleChatCompleted d s
  | AccessGranted => handleAccessGranted s
  | ShowOptionsClicked => setShowOptions (negb (showOptions s)) s
  | OptionSelected txt => handleOptionSelect txt s
  | PlayAudioClicked txt o => handlePlayAudio txt o s
  | AudioEnded => audio_ended s
  | SendClicked tts mark => handleSend tts mark s
  | BackClicked => handleBack s
  | BackToTutorsClicked => handleBackToTutors s
  | ReturnToSelectionClicked => handleReturnToSelection s
  | TimePasses t => advance_to t s
  | StoreUpdated st => with_store st s
  | WalletUpdated addr => with_address addr s
  | TokenManagerInjected tm =>
      in_window (λ w, {| tokenManager := tm; localStorage := localStorage w;
                         location := location w; clock := clock w;
                         log := log w |}) s
  end.

Definition run (es : list Event) (s : State) : State := foldl (flip step) s es.

(** The events through which access is reported or granted. *)
Definition grants_access (e : Event) (s : State) : bool :=
  match e with
  | CheckAccessSettled _ _ (AccessResolved true) => true
  | AccessGranted => true
  | AccessStatusChanged (Some (characterId, true)) =>
      bool_decide (Some characterId = selectedCharacter (store s))
  | _ => false
  end.

(** The events with which a run of [checkAccess] ends. *)
Definition completes_check (e : Event) (s : State) : bool :=
  match e with
  | CheckAccessEffect => access_guard_fails s
  | CheckAccessSettled _ _ _ => true
  | _ => false
  end.
(** Some event of the run [es] from [s0] satisfies [p] in the state it
    meets. *)
Definition occurs (p : Event → State → bool) (es : list Event) (s0 : State)
  : Prop :=
  ∃ es1 e es2, es = es1 ++ e :: es2 ∧ p e (run es1 s0) = true.

(** The arguments of the calls of [window.tokenManager.name] in a log. *)
Fixpoint tokenManager_calls (name : string) (l : list Effect) : list string :=
  match l with
  | TokenManagerCall n arg :: rest =>
      if String.eqb n name then arg :: tokenManager_calls name rest
      else tokenManager_calls name rest
  | _ :: rest => tokenManager_calls name rest
  | [] => []
  end.

(** From [s] to [s'] the log has grown by effects that all satisfy [P]. *)
Definition log_grows (P : Effect → Prop) (s s' : State) : Prop :=
  ∃ new, log (window s') = log (window s) ++ new ∧ Forall P new.

(** A request to the text-to-speech endpoint as [playAudio] sends it
    for the character [ch]; any other effect passes. *)
Definition tts_effect (ch : option Character) (e : Effect) : Prop :=
  match e with
  | Fetch r =>
      url r = "/api/tts" ∧ method r = "POST"
      ∧ ∃ txt, txt ≠ EmptyString
               ∧ body r = JSON_stringify
                            (JObj [("text", JStr txt);
                                   ("language",
                                    JStr match ch with
                                         | Some c =>
                                             if truthy_s (language c)
                                             then language c else "chinese"
                                         | None => "chinese"
                                         end)])
  | _ => True
  end.

(** ** handleEndChat

    The component listens to the [chatCompleted] event it dispatches
    here (the second effect registers [handleChatCompleted]), and
    [dispatchEvent] runs the listeners before it returns.  A [JSON.parse]
    that throws, or an assignment to a parsed value that is no object,
    ends in the [catch], which removes the item. *)
Definition handleEndChat (s : State) : State :=
  let s0 := setShowEndPopup false s in
  match selectedCharacter (store s), address s with
  | Some sel, Some addr =>
      if truthy_s sel && truthy_s addr then
        let s1 := setHasAccess false s0 in
        let key := accessKey addr sel in
        let s2 :=
          match localStorage (window s1) !! key with
          | Some stored =>
              if truthy_s stored then
                match (JSON_parse stored
                         ≫= set_property "completed" (JBool true))
                        ≫= set_property "hasAccess" (JBool false) with
                | Some accessData =>
                    in_window (setItem key (JSON_stringify accessData)) s1
                | None => in_window (removeItem key) s1
                end
              else s1
          | None => s1
          end in
        let s3 := handleChatCompleted (Some sel) s2 in
        in_window (router_push ("/chat/" +:+ language_path s)) s3
      else in_window (router_push "/") s0
  | _, _ => in_window (router_push "/") s0
  end.

(** ** Observations used to state properties *)

(** The requests of a log, in the order they were sent. *)
Fixpoint requests (l : list Effect) : list Request :=
  match l with
  | Fetch r :: rest => r :: requests rest
  | _ :: rest => requests rest
  | [] => []
  end.


(** From [s] to [s'] the clock has not moved, no timer was dropped, and
    a flag that has been raised came with its timeout: the error banner
    with one that clears it 5000 ms ahead, the transition with one that
    advances the scene 1000 ms ahead. *)
Definition steady (s s' : State) : Prop :=
  clock (window s') = clock (window s)
  ∧ (∀ tm, tm ∈ timers s → tm ∈ timers s')
  ∧ (showError s' = true →
     showError s = true
     ∨ Build_Timer (clock (window s) + 5000) ClearError ∈ timers s')
  ∧ (isTransitioning s' = true →
     isTransitioning s = true
     ∨ ∃ n, Build_Timer (clock (window s) + 1000) (AdvanceScene n) ∈ timers s').

(** Every raised flag has a pending timeout that lowers it in time. *)
Definition armed (s : State) : Prop :=
  (showError s = true →
   ∃ tm, tm ∈ timers s ∧ callback tm = ClearError
         ∧ deadline tm ≤ clock (window s) + 5000)
  ∧ (isTransitioning s = true →
     ∃ tm n, tm ∈ timers s ∧ callback tm = AdvanceScene n
             ∧ deadline tm ≤ clock (window s) + 1000).

(** The event that ends the conversation: a send that is accepted in
    scene 5 or later. *)
Definition ends_chat (e : Event) (s : State) : bool :=
  match e with
  | SendClicked _ _ =>
      bool_decide (is_Some (selectedOption s)) && (5 <=? currentScene (store s))
  | _ => false
  end.
End Handlers.

End ChatInterface.

(** * The welcome survey
    src/app/welcome-survey/pages/DailyGoalPage.tsx and SuccessPage.tsx *)

Module Survey.

(** The survey answers are a flat object with string values, one
    property per step of the wizard, in insertion order. *)
Fixpoint get_field (k : string) (fs : list (string * string)) : option string :=
  match fs with
  | [] => None
  | (k', v) :: rest => if String.eqb k' k then Some v else get_field k rest
  end.

(** The answers as the JSON value handed to [JSON.stringify]. *)
Definition survey_json (d : list (string * string)) : Json :=
  JObj (map (λ kv, (kv.1, JStr kv.2)) d).

(** [updateSurveyData] of [@/context/SurveyContext], which this
    development does not define. *)
Class SurveyContext := {
  updateSurveyData :
    list (string * string) → list (string * string) → list (string * string);
}.

(** The callback handed to [setTimeout]: [router.push(path)]. *)
Inductive Callback := PushRoute (path : string).

Record State := {
  (* useSurvey() *)
  surveyData : list (string * string);
  (* useState *)
  isSubmitting : bool;
  error : option string;
  showLoadingScreen : bool;
  (* the browser *)
  window : Window;
  timers : list (Timer Callback);
  (* the keys for which [localStorage.setItem] goes through; for the
     others it throws (storage full or switched off) *)
  storageAccepts : string → bool;
}.

Definition with_surveyData (v : list (string * string)) (s : State) : State :=
  {| surveyData := v; isSubmitting := isSubmitting s; error := error s;
     showLoadingScreen := showLoadingScreen s; window := window s;
     timers := timers s;
     storageAccepts := storageAccepts s |}.

Definition setIsSubmitting (v : bool) (s : State) : State :=
  {| surveyData := surveyData s; isSubmitting := v; error := error s;
     showLoadingScreen := showLoadingScreen s; window := window s;
     timers := timers s;
     storageAccepts := storageAccepts s |}.

Definition setError (v : option string) (s : State) : State :=
  {| surveyData := surveyData s; isSubmitting := isSubmitting s; error := v;
     showLoadingScreen := showLoadingScreen s; window := window s;
     timers := timers s;
     storageAccepts := storageAccepts s |}.

Definition setShowLoadingScreen (v : bool) (s : State) : State :=
  {| surveyData := surveyData s; isSubmitting := isSubmitting s;
     error := error s; showLoadingScreen := v; window := window s;
     timers := timers s;
     storageAccepts := storageAccepts s |}.

Definition with_window (v : Window) (s : State) : State :=
  {| surveyData := surveyData s; isSubmitting := isSubmitting s;
     error := error s; showLoadingScreen := showLoadingScreen s; window := v;
     timers := timers s;
     storageAccepts := storageAccepts s |}.

Definition with_timers (v : list (Timer Callback)) (s : State) : State :=
  {| surveyData := surveyData s; isSubmitting := isSubmitting s;
     error := error s; showLoadingScreen := showLoadingScreen s;
     window := window s; timers := v;
     storageAccepts := storageAccepts s |}.

Definition in_window (f : Window → Window) (s : State) : State :=
  with_window (f (window s)) s.

Definition setTimeout (cb : Callback) (delay : Z) (s : State) : State :=
  with_timers (timers s ++ [Build_Timer (clock (window s) + delay) cb]) s.

(** The page as first rendered, in a browser whose local storage
    accepts writes for the keys [accepts]. *)
Definition mount (d : list (string * string)) (w : Window)
    (accepts : string → bool) : State :=
  {| surveyData := d; isSubmitting := false; error := None;
     showLoadingScreen := false; window := w; timers := [];
     storageAccepts := accepts |}.

(** [localStorage.setItem(k, v)]; [None] when it throws. *)
Definition try_setItem (k v : string) (s : State) : option State :=
  if storageAccepts s k then Some (in_window (setItem k v) s) else None.

Definition run_callback (cb : Callback) (s : State) : State :=
  match cb with
  | PushRoute path => in_window (router_push path) s
  end.

Definition advance_to (t : Z) (s : State) : State :=
  in_window (set_clock (Z.max (clock (window s)) t))
    (foldl (λ st tm, run_callback (callback tm) st)
           (with_timers (pending_timers t (timers s)) s)
           (due_timers t (timers s))).

(** How the request to [/api/submit-survey] ends. *)
Inductive ApiOutcome :=
| RequestFailed                        (* fetch rejects *)
| Responded (ok : bool) (parsed : bool).
    (* a response with [response.ok = ok]; [response.json()] resolves
       ([parsed = true]) or rejects *)

Definition timeOptions : list string :=
  ["5 MIN/DAY"; "10 MIN/DAY"; "15 MIN/DAY"; "20 MIN/DAY"; "30 MIN/DAY"].

Definition survey_data_key : string := "lingobabe_survey_data".
Definition survey_completed_key : string := "lingobabe_survey_completed".
Definition success_path : string := "/welcome-survey/success".

Section Handlers.
Context `{!Runtime}.

(** [surveyData.dailyGoal] *)
Definition dailyGoal (s : State) : option string :=
  get_field "dailyGoal" (surveyData s).

Definition handleTimeSelect `{!SurveyContext} (time : string) (s : State)
  : State :=
  setError None
    (with_surveyData (updateSurveyData [("dailyGoal", time)] (surveyData s)) s).

Definition survey_request (d : list (string * string)) : Request :=
  {| url := "/api/submit-survey"; method := "POST";
     headers := [("Content-Type", "application/json")];
     body := JSON_stringify (survey_json d);
     cache := Some "no-store" |}.

(** The [catch] of the second [try]: the error is logged, the completion
    flag is written and the router pushed.  When that write throws too,
    the exception leaves the handler and the push is not reached. *)
Definition submission_caught (s : State) : State :=
  let s1 := in_window (emit (ConsoleError "Survey submission error:")) s in
  match try_setItem survey_completed_key "true" s1 with
  | Some s2 => in_window (router_push success_path) s2
  | None => s1
  end.

Definition handleSubmit (api : ApiOutcome) (s : State) : State :=
  if negb (truthy (dailyGoal s)) || isSubmitting s then s
  else
    let s1 := setShowLoadingScreen true (setIsSubmitting true s) in
    (* first try: the backup; a write that throws is only warned about *)
    let s2 :=
      match try_setItem survey_data_key
              (JSON_stringify (survey_json (surveyData s))) s1 with
      | Some s' => s'
      | None =>
          in_window (emit (ConsoleWarn "Could not save to localStorage:")) s1
      end in
    (* second try: the request *)
    let s3 := in_window (emit (Fetch (survey_request (surveyData s)))) s2 in
    match api with
    | Responded _ true =>
        match try_setItem survey_completed_key "true" s3 with
        | Some s4 => setTimeout (PushRoute success_path) 1500 s4
        | None => submission_caught s3
        end
    | _ => submission_caught s3
    end.

(** ** Render *)

Record PageProps := {
  highlighted : option string;     (* the option equal to the daily goal *)
  optionsDisabled : bool;
  errorBox : option string;
  submitDisabled : bool;
  submitLabel : string;
}.

Inductive View :=
| LoadingScreen
| GoalPage (props : PageProps).

Definition render (s : State) : View :=
  if showLoadingScreen s then LoadingScreen
  else
    GoalPage
      {| highlighted :=
           List.find (λ o, bool_decide (dailyGoal s = Some o)) timeOptions;
         optionsDisabled := isSubmitting s;
         errorBox := if truthy (error s) then error s else None;
         submitDisabled := negb (truthy (dailyGoal s)) || isSubmitting s;
         submitLabel := if isSubmitting s then "Submitting..." else "CONTINUE" |}.

(** The submit button as the user meets it: a click reaches
    [handleSubmit] only when the button is on the page and enabled. *)
Definition click_submit (api : ApiOutcome) (s : State) : State :=
  match render s with
  | GoalPage p => if submitDisabled p then s else handleSubmit api s
  | LoadingScreen => s
  end.
End Handlers.

(** The mount effect of [SuccessPage]: the completion flag is set again
    and the next page is scheduled; a write that throws ends the effect
    before the timeout is registered. *)
Definition SuccessPage_effect (s : State) : State :=
  match try_setItem survey_completed_key "true" s with
  | Some s1 => setTimeout (PushRoute "/welcome-survey/benefits") 2000 s1
  | None => s
  end.

End Survey.

(** * The pages after the survey
    src/app/welcome-survey/pages/SuccessPage.tsx and BenefitsPage.tsx *)

Module SuccessPage.

(** The page has no hooks of its own; what lives with it is the timer
    its mount effect registers, with the path its callback pushes. *)
Record State := {
  window : Window;
  timer : option (Timer string);
}.

(** The effect: the completion flag, then the timeout. *)
Definition mount (w : Window) : State :=
  {| window := setItem "lingobabe_survey_completed" "true" w;
     timer := Some (Build_Timer (clock w + 2000) "/welcome-survey/benefits") |}.


Definition advance_to (t : Z) (s : State) : State :=
  match timer s with
  | Some tm =>
      if deadline tm <=? t then
        {| window := set_clock (Z.max (clock (window s)) t)
                       (router_push (callback tm) (window s));
           timer := None |}
      else
        {| window := set_clock (Z.max (clock (window s)) t) (window s);
           timer := timer s |}
  | None =>
      {| window := set_clock (Z.max (clock (window s)) t) (window s);
         timer := None |}
  end.

End SuccessPage.

Module BenefitsPage.

Record State := {
  isLoading : bool;
  window : Window;
  timers : list (Timer string);    (* callbacks: router.push(path) *)
}.

Definition mount (w : Window) : State :=
  {| isLoading := false; window := w; timers := [] |}.

(** [setIsLoading(true)], then [checkLanguageSelectorReady()], which
    only registers the timeout. *)
Definition handleContinue (s : State) : State :=
  {| isLoading := true; window := window s;
     timers := timers s
               ++ [Build_Timer (clock (window s) + 2000) "/language-selector"] |}.

Definition advance_to (t : Z) (s : State) : State :=
  {| isLoading := isLoading s;
     window := set_clock (Z.max (clock (window s)) t)
                 (foldl (λ w tm, router_push (callback tm) w) (window s)
                        (due_timers t (timers s)));
     timers := pending_timers t (timers s) |}.

Inductive View := LoadingScreen | BenefitsScreen.

Definition render (s : State) : View :=
  if isLoading s then LoadingScreen else BenefitsScreen.

End BenefitsPage.

(** * Example environments

    A small runtime, a chat store with the evident behaviour and two
    characters' worth of data, over which the properties below are
    evaluated on concrete inputs. *)

Module Examples.
Import ChatInterface.

Definition is_space (c : ascii) : bool :=
  let n := nat_of_ascii c in
  (Nat.eqb n 32 || (Nat.leb 9 n && Nat.leb n 13))%bool.

Fixpoint drop_spaces (l : list ascii) : list ascii :=
  match l with
  | c :: rest => if is_space c then drop_spaces rest else l
  | [] => []
  end.

Definition ascii_trim (s : string) : string :=
  string_of_list_ascii
    (rev (drop_spaces (rev (drop_spaces (list_ascii_of_string s))))).

Definition ascii_lower (c : ascii) : ascii :=
  let n := nat_of_ascii c in
  if (Nat.leb 65 n && Nat.leb n 90)%bool then ascii_of_nat (n + 32) else c.

Fixpoint ascii_toLowerCase (s : string) : string :=
  match s with
  | String c rest => String (ascii_lower c) (ascii_toLowerCase rest)
  | EmptyString => EmptyString
  end.

Definition quote : string := String (ascii_of_nat 34) EmptyString.

(** JSON text without escapes. *)
Fixpoint json_text (j : Json) : string :=
  match j with
  | JNull => "null"
  | JBool true => "true"
  | JBool false => "false"
  | JNum n => Number_toString n
  | JStr s => quote +:+ s +:+ quote
  | JArr xs =>
      "[" +:+ (fix items (l : list Json) : string :=
                 match l with
                 | [] => EmptyString
                 | [x] => json_text x
                 | x :: rest => json_text x +:+ "," +:+ items rest
                 end) xs +:+ "]"
  | JObj fs =>
      "{" +:+ (fix props (l : list (string * Json)) : string :=
                 match l with
                 | [] => EmptyString
                 | [(k, v)] => quote +:+ k +:+ quote +:+ ":" +:+ json_text v
                 | (k, v) :: rest =>
                     quote +:+ k +:+ quote +:+ ":" +:+ json_text v +:+ ","
                     +:+ props rest
                 end) fs +:+ "}"
  end.

(** The access record another component keeps in local storage. *)
Definition stored_access : Json := JObj [("hasAccess", JBool true)].

(** A parser that knows the one text the examples store. *)
Definition json_parse (s : string) : option Json :=
  if String.eqb s (json_text stored_access) then Some stored_access else None.

#[export] Instance example_runtime : Runtime :=
  {| trim := ascii_trim; toLowerCase := ascii_toLowerCase;
     JSON_stringify := json_text; JSON_parse := json_parse |}.

Definition clamp_happiness (h : Z) : Z := Z.min 100 (Z.max 0 h).

Definition says (zh en : string) : MessageContent :=
  {| english := Some en; chinese := Some zh; pinyin := None; japanese := None;
     romaji := None; korean := None; romanized := None; spanish := None;
     video := None |}.

(** An option worth ten points, with a reply. *)
Definition greet : ChatOption :=
  {| text := says "ni hao" "hello"; points := Some 10;
     response := Some (says "ni hao ma" "how are you") |}.

(** An option without points and without a reply. *)
Definition nod : ChatOption :=
  {| text := says "en" "mm"; points := None; response := None |}.

Definition mei : Character :=
  {| name := "Mei"; language := "chinese"; image := "/mei.png";
     scenes := {[ 1 := {| options := [greet; nod] |};
                  5 := {| options := [greet; nod] |} ]} |}.

#[export] Instance example_modules : ChatModules :=
  {| characters := λ c, if String.eqb c "mei" then Some mei else None;
     isValidCharacterId := λ c, String.eqb c "mei";
     addMessage := λ r m st,
       {| selectedCharacter := selectedCharacter st;
          messages := messages st
                      ++ [{| role := r; content := m; timestamp := None |}];
          happiness := happiness st; currentScene := currentScene st |};
     updateHappiness := λ c p st,
       {| selectedCharacter := selectedCharacter st; messages := messages st;
          happiness :=
            <[c := clamp_happiness (num_or (happiness st !! c) 50 + p)]>
              (happiness st);
          currentScene := currentScene st |};
     setScene := λ n st,
       {| selectedCharacter := selectedCharacter st; messages := messages st;
          happiness := happiness st; currentScene := n |} |}.

Definition wallet : string := "0xAB".

Definition window0 (tm : option TokenManager) : Window :=
  {| tokenManager := tm; localStorage := ∅; location := "/chat/chinese/mei";
     clock := 0; log := [] |}.

Definition store_at (scene : Z) : Store :=
  {| selectedCharacter := Some "mei"; messages := []; happiness := ∅;
     currentScene := scene |}.

(** A conversation with Mei in scene [scene], access granted, [txt]
    typed into the input. *)
Definition chatting (tm : option TokenManager) (scene : Z) (txt : string)
  : State :=
  setInput txt
    (setHasAccess true
       (setIsCheckingAccess false
          (mount (store_at scene) (Some wallet) (window0 tm)))).

Definition ready : option TokenManager := Some {| initialized := true |}.



(** The access check runs and reports access. *)
Definition granted_run : list Event :=
  [CheckAccessEffect; CheckAccessSettled wallet "mei" (AccessResolved true)].


(** Two banners, the second raised 4000 ms after the first; then the
    clock reaches 5000 ms. *)
Definition first_banner : State :=
  showErrorMessage "first" (chatting None 1 EmptyString).

Definition second_banner : State :=
  showErrorMessage "second" (advance_to 4000 first_banner).

Definition after_first_timeout : State := advance_to 5000 second_banner.

Definition survey_window : Window :=
  {| tokenManager := None; localStorage := ∅;
     location := "/welcome-survey/daily-goal"; clock := 0; log := [] |}.

Definition answers (goal : option string) : list (string * string) :=
  [("referralSource", "YOUTUBE"); ("motivation", "PREPARE FOR TRAVEL")]
  ++ match goal with
     | Some g => [("dailyGoal", g)]
     | None => []
     end.


(** From the mount to the last send, with no token manager on the
    window. *)
Definition last_send_run : list Event :=
  [CheckAccessEffect; AccessGranted; OptionSelected "ni hao";
   SendClicked PlayStarted Returned].

(** The daily-goal page with a goal chosen, and the same page while a
    submission is in progress. *)
Definition goal_chosen : Survey.State :=
  Survey.mount (answers (Some "10 MIN/DAY")) survey_window (λ _, true).

(** The same page in a browser whose local storage is full: every
    [setItem] throws. *)
Definition goal_chosen_storage_full : Survey.State :=
  Survey.mount (answers (Some "10 MIN/DAY")) survey_window (λ _, false).

Definition submitting : Survey.State :=
  Survey.setShowLoadingScreen true (Survey.setIsSubmitting true goal_chosen).

End Examples.

(** * Facts about timers *)

Section TimerFacts.
Context {C : Type}.

Lemma insert_timer_last (t x : Timer C) (l : list (Timer C)) :
  deadline t ≤ deadline x →
  insert_timer t (l ++ [x]) = insert_timer t l ++ [x].
Proof.
  intros Hle. induction l as [|u l IH]; simpl.
  - destruct (Z.leb_spec (deadline t) (deadline x)); [done | lia].
  - destruct (deadline t <=? deadline u); [done |]. by rewrite IH.
Qed.

Lemma sort_timers_last (x : Timer C) (l : list (Timer C)) :
  Forall (λ u, deadline u ≤ deadline x) l →
  sort_timers (l ++ [x]) = sort_timers l ++ [x].
Proof.
  induction 1 as [|u l Hu Hl IH]; [done |].
  unfold sort_timers in *. simpl. rewrite IH.
  by apply insert_timer_last.
Qed.

(** A timer registered last with the latest deadline among the due
    ones is the last to run. *)
Lemma due_timers_last (t : Z) (x : Timer C) (l : list (Timer C)) :
  deadline x = t →
  due_timers t (l ++ [x]) = due_timers t l ++ [x].
Proof.
  intros Hx. unfold due_timers. rewrite filter_app.
  rewrite (filter_cons_True _ x []) by lia. rewrite filter_nil.
  apply sort_timers_last.
  apply Forall_forall. intros u Hu.
  apply list_elem_of_filter in Hu. lia.
Qed.

Lemma insert_timer_elem (t u : Timer C) (l : list (Timer C)) :
  u ∈ insert_timer t l ↔ u = t ∨ u ∈ l.
Proof.
  induction l as [|v l IH]; simpl.
  - rewrite list_elem_of_singleton, elem_of_nil. tauto.
  - destruct (deadline t <=? deadline v).
    + by rewrite elem_of_cons.
    + rewrite !elem_of_cons, IH. tauto.
Qed.

Lemma due_timers_elem (t : Z) (u : Timer C) (l : list (Timer C)) :
  u ∈ due_timers t l ↔ deadline u ≤ t ∧ u ∈ l.
Proof.
  unfold due_timers, sort_timers.
  induction l as [|v l IH].
  - rewrite filter_nil. simpl. rewrite elem_of_nil. tauto.
  - destruct (decide (deadline v ≤ t)) as [Hv|Hv].
    + rewrite filter_cons_True by done. simpl.
      rewrite insert_timer_elem, IH, elem_of_cons.
      split; [intros [->|[? ?]]; auto | intros [? [->|?]]; auto].
    + rewrite filter_cons_False by done. rewrite IH, elem_of_cons.
      split; [intros [? ?]; auto | intros [? [->|?]]; [done | auto]].
Qed.

(** A timer that is not yet due does not run. *)
Lemma due_timers_not_yet (t : Z) (x : Timer C) (l : list (Timer C)) :
  t < deadline x →
  due_timers t (l ++ [x]) = due_timers t l.
Proof.
  intros Hx. unfold due_timers. rewrite filter_app.
  rewrite (filter_cons_False _ x []) by lia.
  by rewrite filter_nil, app_nil_r.
Qed.
End TimerFacts.

(** * Facts about the chat interface *)

Section ChatFacts.
Import ChatInterface.
Context `{!Runtime} `{!ChatModules}.

(** ** The guard of [handleSend] *)

Lemma handleSend_selected (tts : TtsOutcome) (mark : CallOutcome) (s : State)
    (opt : ChatOption) :
  selectedOption s = Some opt →
  ∃ addr sel,
    address s = Some addr ∧ selectedCharacter (store s) = Some sel
    ∧ truthy_s addr = true ∧ truthy_s sel = true
    ∧ isTransitioning s = false
    ∧ findOption (trim (input s)) (currentSceneOptions s) = Some opt
    ∧ handleSend tts mark s = sendOption tts mark addr sel opt s s.
Proof.
  unfold selectedOption, handleSend.
  destruct (truthy_s (trim (input s))) eqn:Hin; [| done].
  destruct (selectedCharacter (store s)) as [sel|] eqn:Hsel; [| done].
  destruct (character s) as [ch|] eqn:Hch; simpl;
    [| by rewrite andb_false_r].
  destruct (truthy_s sel) eqn:Hts; [| done].
  destruct (isTransitioning s) eqn:Htr; [done |].
  destruct (address s) as [addr|] eqn:Haddr; [| done]. simpl.
  destruct (truthy_s addr) eqn:Hta; [| done]. simpl.
  intros Hfind. exists addr, sel. rewrite Hfind. done.
Qed.

Lemma handleSend_rejected (tts : TtsOutcome) (mark : CallOutcome) (s : State) :
  selectedOption s = None →
  handleSend tts mark s = showErrorMessage "Invalid input or connection state" s
  ∨ handleSend tts mark s
    = showErrorMessage "Please select a valid response option" s.
Proof.
  unfold selectedOption, handleSend.
  destruct (selectedCharacter (store s)) as [sel|]; [| by left].
  destruct (character s) as [ch|]; [| by left].
  destruct (address s) as [addr|]; [| by left].
  destruct (truthy_s (trim (input s))); simpl; [| by left].
  destruct (truthy_s sel); simpl; [| by left].
  destruct (isTransitioning s); simpl; [by left |].
  destruct (truthy_s addr); simpl; [| by left].
  intros ->. by right.
Qed.

Lemma findOption_none (inp : string) (opts : list ChatOption) :
  (∀ opt, opt ∈ opts → primaryText (text opt) ≠ Some inp) →
  findOption inp opts = None.
Proof.
  intros Hno. unfold findOption.
  destruct (List.find _ opts) as [opt|] eqn:Hfind; [| done].
  apply find_some in Hfind as [Hin Heq].
  apply bool_decide_eq_true in Heq.
  apply list_elem_of_In in Hin. by destruct (Hno opt Hin).
Qed.

(** C10.  [handleSend] accepts only the predefined options: when the
    trimmed input is not the primary text of an option of the current
    scene, or the input is empty, or no character is selected, or no
    wallet is connected, an error message is shown and nothing else
    happens: the store (messages, happiness, scene) and the browser
    storage are as before, and the only timer added is the one that
    clears the message. *)
Theorem handleSend_rejects_atomically (tts : TtsOutcome) (mark : CallOutcome)
    (s : State) :
  (∀ opt, opt ∈ currentSceneOptions s
          → primaryText (text opt) ≠ Some (trim (input s)))
  ∨ trim (input s) = EmptyString
  ∨ truthy (selectedCharacter (store s)) = false
  ∨ truthy (address s) = false →
  ∃ msg,
    msg ≠ EmptyString
    ∧ error (handleSend tts mark s) = Some msg
    ∧ showError (handleSend tts mark s) = true
    ∧ store (handleSend tts mark s) = store s
    ∧ window (handleSend tts mark s) = window s
    ∧ timers (handleSend tts mark s)
      = timers s ++ [Build_Timer (clock (window s) + 5000) ClearError]
    ∧ input (handleSend tts mark s) = input s
    ∧ isTransitioning (handleSend tts mark s) = isTransitioning s
    ∧ hasAccess (handleSend tts mark s) = hasAccess s
    ∧ showEndPopup (handleSend tts mark s) = showEndPopup s.
Proof.
  intros Hcase.
  assert (selectedOption s = None) as Hnone.
  { unfold selectedOption.
    destruct Hcase as [Hno | [Hin | [Hsel | Haddr]]].
    - rewrite (findOption_none _ _ Hno). by destruct (_ && _).
    - by rewrite Hin.
    - rewrite Hsel. by rewrite andb_false_r.
    - rewrite Haddr. by rewrite andb_false_r. }
  destruct (handleSend_rejected tts mark s Hnone) as [-> | ->];
    eexists; (split; [| repeat split; reflexivity]); discriminate.
Qed.

(** ** The access check *)

(** C4.  Every failure of the access check defaults to no access: when
    the token manager is missing or not initialized, when the wallet
    address or the selected character is missing, or when
    [tokenManager.checkAccess] throws, [hasAccess] ends up false and the
    checking flag is cleared.  The failure raises no banner: neither
    [showError] nor the timers change. *)
Theorem checkAccess_failure_is_no_access (o : AccessOutcome) (s : State) :
  tokenManager_initialized (window s) = false
  ∨ truthy (address s) = false
  ∨ truthy (selectedCharacter (store s)) = false
  ∨ (∃ msg, o = AccessRejected msg) →
  hasAccess (checkAccess o s) = false
  ∧ isCheckingAccess (checkAccess o s) = false
  ∧ showError (checkAccess o s) = showError s
  ∧ timers (checkAccess o s) = timers s.
Proof.
  intros Hfail. unfold checkAccess, checkAccess_begin.
  destruct (access_guard_fails s) eqn:Hguard; [done |].
  unfold access_guard_fails in Hguard.
  apply orb_false_iff in Hguard as [Hguard Hsel].
  apply orb_false_iff in Hguard as [Htm Haddr].
  apply negb_false_iff in Hsel, Htm, Haddr.
  destruct Hfail as [Hf | [Hf | [Hf | [msg ->]]]]; try congruence.
  destruct (address s) as [addr|]; [| done].
  destruct (selectedCharacter (store s)) as [sel|]; done.
Qed.

(** ** What the handlers leave alone *)

Ltac frame :=
  intros;
  repeat (progress simpl || unfold in_window, in_store, setTimeout
          || case_match);
  try reflexivity.

Lemma foldl_run_callback {A : Type} (f : State → A) (l : list (Timer Callback))
    (s : State) :
  (∀ cb st, f (run_callback cb st) = f st) →
  f (foldl (λ st tm, run_callback (callback tm) st) s l) = f s.
Proof.
  intros Hf. revert s. induction l as [|tm l IH]; intros s; simpl; [done |].
  by rewrite IH, Hf.
Qed.

Lemma hasAccess_advance_to (t : Z) (s : State) :
  hasAccess (advance_to t s) = hasAccess s.
Proof.
  unfold advance_to. simpl.
  rewrite (foldl_run_callback hasAccess); [done |]. by intros [].
Qed.

Lemma isCheckingAccess_advance_to (t : Z) (s : State) :
  isCheckingAccess (advance_to t s) = isCheckingAccess s.
Proof.
  unfold advance_to. simpl.
  rewrite (foldl_run_callback isCheckingAccess); [done |]. by intros [].
Qed.

Lemma hasAccess_playAudio_in ch playing txt o (s : State) :
  hasAccess (playAudio_in ch playing txt o s) = hasAccess s.
Proof. unfold playAudio_in. frame. Qed.

Lemma isCheckingAccess_playAudio_in ch playing txt o (s : State) :
  isCheckingAccess (playAudio_in ch playing txt o s) = isCheckingAccess s.
Proof. unfold playAudio_in. frame. Qed.

Lemma hasAccess_applyResponse ch playing tts r (s : State) :
  hasAccess (applyResponse ch playing tts r s) = hasAccess s.
Proof.
  unfold applyResponse.
  repeat case_match; rewrite ?hasAccess_playAudio_in; reflexivity.
Qed.

Lemma isCheckingAccess_applyResponse ch playing tts r (s : State) :
  isCheckingAccess (applyResponse ch playing tts r s) = isCheckingAccess s.
Proof.
  unfold applyResponse.
  repeat case_match; rewrite ?isCheckingAccess_playAudio_in; reflexivity.
Qed.

Lemma hasAccess_revoke_stored_access key (s : State) :
  hasAccess (revoke_stored_access key s) = hasAccess s.
Proof. unfold revoke_stored_access. frame. Qed.

Lemma isCheckingAccess_revoke_stored_access key (s : State) :
  isCheckingAccess (revoke_stored_access key s) = isCheckingAccess s.
Proof. unfold revoke_stored_access. frame. Qed.

(** [completeChat] revokes access exactly when the token manager is
    initialized and [markChatCompleted] returns. *)
Lemma hasAccess_completeChat mark addr sel (s : State) :
  hasAccess (completeChat mark addr sel s)
  = if tokenManager_initialized (window s) && truthy_s sel then
      match mark with
      | Returned => false
      | Thrown => hasAccess s
      end
    else hasAccess s.
Proof.
  unfold completeChat.
  destruct (tokenManager_initialized (window s) && truthy_s sel);
    [| reflexivity].
  destruct mark; simpl; [reflexivity |].
  apply hasAccess_revoke_stored_access.
Qed.

Lemma isCheckingAccess_completeChat mark addr sel (s : State) :
  isCheckingAccess (completeChat mark addr sel s) = isCheckingAccess s.
Proof.
  unfold completeChat.
  destruct (tokenManager_initialized (window s) && truthy_s sel);
    [| reflexivity].
  destruct mark; simpl; apply isCheckingAccess_revoke_stored_access.
Qed.

Lemma hasAccess_deliver tts addr sel opt (r s : State) :
  hasAccess (deliver tts addr sel opt r s) = hasAccess s.
Proof.
  unfold deliver.
  repeat case_match; rewrite ?hasAccess_applyResponse; reflexivity.
Qed.

Lemma isCheckingAccess_deliver tts addr sel opt (r s : State) :
  isCheckingAccess (deliver tts addr sel opt r s) = isCheckingAccess s.
Proof.
  unfold deliver.
  repeat case_match; rewrite ?isCheckingAccess_applyResponse; reflexivity.
Qed.

Lemma hasAccess_sendOption tts mark addr sel opt (r s : State) :
  hasAccess (sendOption tts mark addr sel opt r s) = true → hasAccess s = true.
Proof.
  unfold sendOption. simpl.
  destruct (5 <=? currentScene (store r)).
  - rewrite hasAccess_completeChat.
    repeat case_match; try discriminate; by rewrite hasAccess_deliver.
  - unfold beginTransition. simpl. by rewrite hasAccess_deliver.
Qed.

Lemma isCheckingAccess_sendOption tts mark addr sel opt (r s : State) :
  isCheckingAccess (sendOption tts mark addr sel opt r s) = isCheckingAccess s.
Proof.
  unfold sendOption. simpl.
  destruct (5 <=? currentScene (store r)).
  - by rewrite isCheckingAccess_completeChat, isCheckingAccess_deliver.
  - unfold beginTransition. simpl. by rewrite isCheckingAccess_deliver.
Qed.

Lemma hasAccess_handleSend tts mark (s : State) :
  hasAccess (handleSend tts mark s) = true → hasAccess s = true.
Proof.
  destruct (selectedOption s) as [opt|] eqn:Hopt.
  - destruct (handleSend_selected tts mark s opt Hopt)
      as (addr & sel & _ & _ & _ & _ & _ & _ & ->).
    apply hasAccess_sendOption.
  - by destruct (handleSend_rejected tts mark s Hopt) as [-> | ->].
Qed.

Lemma isCheckingAccess_handleSend tts mark (s : State) :
  isCheckingAccess (handleSend tts mark s) = isCheckingAccess s.
Proof.
  destruct (selectedOption s) as [opt|] eqn:Hopt.
  - destruct (handleSend_selected tts mark s opt Hopt)
      as (addr & sel & _ & _ & _ & _ & _ & _ & ->).
    apply isCheckingAccess_sendOption.
  - by destruct (handleSend_rejected tts mark s Hopt) as [-> | ->].
Qed.

(** ** Access over a run of the component *)

(** [hasAccess] turns true only through an event that reports or grants
    access. *)
Lemma step_hasAccess (e : Event) (s : State) :
  hasAccess (step e s) = true →
  hasAccess s = true ∨ grants_access e s = true.
Proof.
  destruct e; unfold step, grants_access; try (by left).
  - unfold checkAccess_begin. repeat case_match; simpl; auto.
  - destruct o as [[|]|msg]; simpl; auto.
  - destruct detail as [[c [|]]|]; simpl; auto; case_bool_decide; simpl; auto.
  - unfold handleChatCompleted. repeat case_match; simpl; auto.
  - auto.
  - unfold handlePlayAudio, playAudio. case_match; [auto |].
    rewrite hasAccess_playAudio_in. auto.
  - intros Hs. left. by eapply hasAccess_handleSend.
  - rewrite hasAccess_advance_to. auto.
Qed.

(** The checking flag is cleared only by an event that ends a run of
    [checkAccess]. *)
Lemma step_isCheckingAccess (e : Event) (s : State) :
  isCheckingAccess (step e s) = false →
  isCheckingAccess s = false ∨ completes_check e s = true.
Proof.
  destruct e; unfold step, completes_check; try (by left).
  - unfold checkAccess_begin. repeat case_match; simpl; auto; discriminate.
  - auto.
  - unfold handleAccessChange. repeat case_match; simpl; auto.
  - unfold handleChatCompleted. repeat case_match; simpl; auto.
  - unfold handlePlayAudio, playAudio. case_match; [auto |].
    rewrite isCheckingAccess_playAudio_in. auto.
  - rewrite isCheckingAccess_handleSend. auto.
  - rewrite isCheckingAccess_advance_to. auto.
Qed.

Lemma run_snoc (es : list Event) (e : Event) (s : State) :
  run (es ++ [e]) s = step e (run es s).
Proof. unfold run. by rewrite foldl_app. Qed.

Lemma occurs_snoc p (es : list Event) (e : Event) (s0 : State) :
  occurs p es s0 ∨ p e (run es s0) = true → occurs p (es ++ [e]) s0.
Proof.
  intros [(es1 & e' & es2 & -> & Hp) | Hp].
  - exists es1, e', (es2 ++ [e]). by rewrite <- app_assoc.
  - by exists es, e, [].
Qed.

Lemma run_hasAccess (es : list Event) (s0 : State) :
  hasAccess (run es s0) = true →
  hasAccess s0 = true ∨ occurs grants_access es s0.
Proof.
  induction es as [|e es IH] using rev_ind; [by left |].
  rewrite run_snoc. intros Hs.
  destruct (step_hasAccess _ _ Hs) as [Hprev | Hgrant].
  - destruct (IH Hprev); [by left |]. right. apply occurs_snoc. by left.
  - right. apply occurs_snoc. by right.
Qed.

Lemma run_isCheckingAccess (es : list Event) (s0 : State) :
  isCheckingAccess (run es s0) = false →
  isCheckingAccess s0 = false ∨ occurs completes_check es s0.
Proof.
  induction es as [|e es IH] using rev_ind; [by left |].
  rewrite run_snoc. intros Hs.
  destruct (step_isCheckingAccess _ _ Hs) as [Hprev | Hdone].
  - destruct (IH Hprev); [by left |]. right. apply occurs_snoc. by left.
  - right. apply occurs_snoc. by right.
Qed.

(** C1.  With a character selected, what the component renders after
    any run of events from its mount is determined by the access state:
    the 'Verifying access...' screen while the check is running, the
    access-control screen for the selected character while [hasAccess]
    is false, and the chat view only when [hasAccess] is true.  The
    access-control screen and the chat view appear only after a run of
    [checkAccess] has ended, and the chat view only after
    [tokenManager.checkAccess] reported access or the access-granted
    callback or event set [hasAccess]. *)
Theorem chat_view_requires_access (st : Store) (addr : option string)
    (w : Window) (es : list Event) :
  truthy (selectedCharacter (store (run es (mount st addr w)))) = true →
  match render (run es (mount st addr w)) with
  | VerifyingAccess => isCheckingAccess (run es (mount st addr w)) = true
  | AccessRequired c _ =>
      selectedCharacter (store (run es (mount st addr w))) = Some c
      ∧ isCheckingAccess (run es (mount st addr w)) = false
      ∧ hasAccess (run es (mount st addr w)) = false
      ∧ occurs completes_check es (mount st addr w)
  | ChatView _ =>
      isCheckingAccess (run es (mount st addr w)) = false
      ∧ hasAccess (run es (mount st addr w)) = true
      ∧ occurs completes_check es (mount st addr w)
      ∧ occurs grants_access es (mount st addr w)
  end.
Proof.
  set (s := run es (mount st addr w)). intros Hsel.
  pose proof (run_hasAccess es (mount st addr w)) as Hacc.
  pose proof (run_isCheckingAccess es (mount st addr w)) as Hchk.
  fold s in Hacc, Hchk. unfold render.
  destruct (isCheckingAccess s) eqn:Hc; [done |].
  destruct (Hchk eq_refl) as [? | Hdone]; [done |].
  destruct (selectedCharacter (store s)) as [c|] eqn:Hs; [| done].
  simpl in Hsel. rewrite Hsel.
  destruct (hasAccess s) eqn:Ha; simpl; [| done].
  destruct (Hacc eq_refl) as [? | Hgrant]; done.
Qed.

(** ** The requests the component sends *)

Ltac each_effect :=
  repeat (apply Forall_cons_2; [first [assumption | exact I | done] |]);
  apply Forall_nil_2.

Lemma log_grows_same P (s s' : State) :
  log (window s') = log (window s) → log_grows P s s'.
Proof. intros Heq. exists []. by rewrite Heq, app_nil_r. Qed.

Lemma log_grows_trans P (s1 s2 s3 : State) :
  log_grows P s1 s2 → log_grows P s2 s3 → log_grows P s1 s3.
Proof.
  intros (n1 & H1 & F1) (n2 & H2 & F2). exists (n1 ++ n2).
  split; [by rewrite H2, H1, app_assoc | by apply Forall_app].
Qed.

Lemma log_grows_emit (P : Effect → Prop) (e : Effect) (s : State) :
  P e → log_grows P s (in_window (emit e) s).
Proof. intros He. exists [e]. split; [done | each_effect]. Qed.

Lemma log_grows_setItem (P : Effect → Prop) (k v : string) (s : State) :
  P (StorageSet k v) → log_grows P s (in_window (setItem k v) s).
Proof. intros He. exists [StorageSet k v]. split; [done | each_effect]. Qed.

Lemma log_grows_removeItem (P : Effect → Prop) (k : string) (s : State) :
  P (StorageRemove k) → log_grows P s (in_window (removeItem k) s).
Proof. intros He. exists [StorageRemove k]. split; [done | each_effect]. Qed.

Lemma log_advance_to (t : Z) (s : State) :
  log (window (advance_to t s)) = log (window s).
Proof.
  unfold advance_to. simpl.
  rewrite (foldl_run_callback (λ st, log (window st))); [done |]. by intros [].
Qed.

Lemma tts_request_ok (ch : option Character) (txt : string) :
  truthy_s txt = true → tts_effect ch (Fetch (tts_request txt ch)).
Proof.
  intros Htxt. simpl. repeat split. exists txt. split; [| done].
  intros ->. discriminate.
Qed.

Create HintDb logs.

(** The log of a composed handler, one handler at a time from the
    outside in. *)
Ltac log_last :=
  first [ apply log_grows_same; reflexivity
        | solve [auto with logs]
        | eexists [_]; split; [reflexivity | each_effect] ].

Ltac log_peel :=
  repeat lazymatch goal with
    | |- log_grows _ ?s ?s => apply log_grows_same; reflexivity
    | |- log_grows _ _ (?f ?x) =>
        apply (log_grows_trans _ _ x); [| log_last]
    end.

Lemma log_playAudio_in ch playing txt o (s : State) :
  log_grows (tts_effect ch) s (playAudio_in ch playing txt o s).
Proof.
  unfold playAudio_in.
  destruct (truthy_s txt) eqn:Htxt; simpl; [| by apply log_grows_same].
  destruct playing; simpl; [by apply log_grows_same |].
  pose proof (tts_request_ok ch txt Htxt) as Hok.
  destruct (tts_failed o).
  - exists [Fetch (tts_request txt ch); ConsoleError "Audio playback error:"].
    split; [simpl; by rewrite <- app_assoc | each_effect].
  - exists [Fetch (tts_request txt ch)]. split; [done | each_effect].
Qed.
#[local] Hint Resolve log_playAudio_in : logs.

Lemma log_applyResponse ch playing tts r (s : State) :
  log_grows (tts_effect ch) s (applyResponse ch playing tts r s).
Proof. unfold applyResponse. repeat case_match; log_peel. Qed.
#[local] Hint Resolve log_applyResponse : logs.

Lemma log_revoke_stored_access ch key (s : State) :
  log_grows (tts_effect ch) s (revoke_stored_access key s).
Proof. unfold revoke_stored_access. repeat case_match; log_peel. Qed.
#[local] Hint Resolve log_revoke_stored_access : logs.

Lemma log_completeChat ch mark addr sel (s : State) :
  log_grows (tts_effect ch) s (completeChat mark addr sel s).
Proof. unfold completeChat. repeat case_match; log_peel. Qed.
#[local] Hint Resolve log_completeChat : logs.

Lemma log_beginTransition ch scene addr sel (s : State) :
  log_grows (tts_effect ch) s (beginTransition scene addr sel s).
Proof. unfold beginTransition. log_peel. Qed.
#[local] Hint Resolve log_beginTransition : logs.

Lemma log_applyPoints ch happy addr sel p (s : State) :
  log_grows (tts_effect ch) s (applyPoints happy addr sel p s).
Proof. unfold applyPoints. log_peel. Qed.
#[local] Hint Resolve log_applyPoints : logs.

Lemma log_deliver tts addr sel opt (r s : State) :
  log_grows (tts_effect (character r)) s (deliver tts addr sel opt r s).
Proof. unfold deliver. repeat case_match; log_peel. Qed.
#[local] Hint Resolve log_deliver : logs.

Lemma log_sendOption tts mark addr sel opt (r s : State) :
  log_grows (tts_effect (character r)) s (sendOption tts mark addr sel opt r s).
Proof. unfold sendOption. repeat case_match; log_peel. Qed.

Lemma log_handleSend tts mark (s : State) :
  log_grows (tts_effect (character s)) s (handleSend tts mark s).
Proof.
  destruct (selectedOption s) as [opt|] eqn:Hopt.
  - destruct (handleSend_selected tts mark s opt Hopt)
      as (addr & sel & _ & _ & _ & _ & _ & _ & ->).
    apply log_sendOption.
  - destruct (handleSend_rejected tts mark s Hopt) as [-> | ->];
      by apply log_grows_same.
Qed.

(** C8.  Whatever happens to the component, the requests it sends are
    text-to-speech requests: every [fetch] an event adds to the log is a
    POST to /api/tts whose body is the JSON text of an object with
    exactly the fields [text], a non-empty string, and [language], the
    language of the selected character or 'chinese' when there is none.
    And [playAudio] does send that request whenever it is given a
    non-empty text while no audio is playing. *)
Theorem tts_requests_are_well_formed :
  (∀ (e : Event) (s : State), log_grows (tts_effect (character s)) s (step e s))
  ∧ (∀ (txt : string) (o : TtsOutcome) (s : State),
       txt ≠ EmptyString → audioPlaying s = false →
       ∃ rest,
         log (window (playAudio txt o s))
         = log (window s)
           ++ Fetch {| url := "/api/tts"; method := "POST";
                       headers := [("Content-Type", "application/json")];
                       body := JSON_stringify
                                 (JObj [("text", JStr txt);
                                        ("language",
                                         JStr (tts_language (character s)))]);
                       cache := None |} :: rest
         ∧ Forall (λ e, ∀ r, e ≠ Fetch r) rest).
Proof.
  split.
  - intros e s. destruct e; unfold step;
      try (by apply log_grows_same).
    + unfold checkAccess_begin. repeat case_match; log_peel.
    + unfold checkAccess_settle. repeat case_match; log_peel.
    + unfold handleAccessChange. repeat case_match; log_peel.
    + unfold handleChatCompleted. repeat case_match; log_peel.
    + unfold handlePlayAudio, playAudio. case_match;
        [by apply log_grows_same | apply log_playAudio_in].
    + apply log_handleSend.
    + unfold handleBack. log_peel.
    + unfold handleBackToTutors. log_peel.
    + unfold handleReturnToSelection. log_peel.
    + apply log_grows_same, log_advance_to.
  - intros txt o s Htxt Hplaying. unfold playAudio, playAudio_in.
    assert (truthy_s txt = true) as ->.
    { unfold truthy_s. apply negb_true_iff, String.eqb_neq. done. }
    rewrite Hplaying. simpl. destruct (tts_failed o).
    + exists [ConsoleError "Audio playback error:"].
      split; [simpl; by rewrite <- app_assoc | each_effect].
    + exists []. split; [done | constructor].
Qed.

(** ** The error banner *)

Lemma foldl_run_callback_in {A : Type} (f : State → A)
    (l : list (Timer Callback)) (s : State) :
  (∀ tm st, tm ∈ l → f (run_callback (callback tm) st) = f st) →
  f (foldl (λ st tm, run_callback (callback tm) st) s l) = f s.
Proof.
  revert s. induction l as [|tm l IH]; intros s Hf; simpl; [done |].
  rewrite IH; [apply Hf; by left |].
  intros tm' st Hin. apply Hf. by right.
Qed.

(** When the timer registered last is due exactly at [t], its callback
    is the last to run. *)
Lemma advance_to_last (t : Z) (x : Timer Callback) (l : list (Timer Callback))
    (s : State) :
  timers s = l ++ [x] → deadline x = t →
  ∃ mid, advance_to t s
         = in_window (set_clock (Z.max (clock (window s)) t))
             (run_callback (callback x) mid).
Proof.
  intros Hl Hx. unfold advance_to. rewrite Hl.
  rewrite (due_timers_last t x l Hx), foldl_app. simpl. eauto.
Qed.

(** C7, as the code has it.  [showErrorMessage] sets the error text and
    the visibility flag and registers one timeout, 5000 ms ahead, whose
    callback clears both.  The banner is therefore gone once those 5
    seconds have passed; and it stays up for the whole 5 seconds when no
    timeout of an earlier banner is still pending. *)
Theorem showErrorMessage_is_transient (msg : string) (s : State) :
  error (showErrorMessage msg s) = Some msg
  ∧ showError (showErrorMessage msg s) = true
  ∧ timers (showErrorMessage msg s)
    = timers s ++ [Build_Timer (clock (window s) + 5000) ClearError]
  ∧ (∀ st, showError (run_callback ClearError st) = false
           ∧ error (run_callback ClearError st) = None)
  ∧ showError (advance_to (clock (window s) + 5000) (showErrorMessage msg s))
    = false
  ∧ error (advance_to (clock (window s) + 5000) (showErrorMessage msg s))
    = None
  ∧ (Forall (λ tm, callback tm ≠ ClearError) (timers s) →
     ∀ t, t < clock (window s) + 5000 →
       showError (advance_to t (showErrorMessage msg s)) = true
       ∧ error (advance_to t (showErrorMessage msg s)) = Some msg).
Proof.
  split; [done |]. split; [done |]. split; [done |]. split; [done |].
  destruct (advance_to_last (clock (window s) + 5000)
              (Build_Timer (clock (window s) + 5000) ClearError)
              (timers s) (showErrorMessage msg s) eq_refl eq_refl)
    as [mid Hmid].
  rewrite Hmid. split; [done |]. split; [done |].
  intros Hnone t Ht. unfold advance_to.
  change (timers (showErrorMessage msg s))
    with (timers s ++ [Build_Timer (clock (window s) + 5000) ClearError]).
  rewrite due_timers_not_yet by (simpl; lia).
  assert (∀ tm st, tm ∈ due_timers t (timers s) →
            showError (run_callback (callback tm) st) = showError st
            ∧ error (run_callback (callback tm) st) = error st) as Hkeep.
  { intros tm st Hin. apply due_timers_elem in Hin as [_ Hin].
    rewrite Forall_forall in Hnone. specialize (Hnone tm Hin).
    by destruct (callback tm). }
  simpl. split.
  - rewrite (foldl_run_callback_in showError); [done |].
    intros tm st Hin. by apply Hkeep.
  - rewrite (foldl_run_callback_in error); [done |].
    intros tm st Hin. by apply Hkeep.
Qed.

(** ** Sending an option *)

Lemma tokenManager_calls_app (n : string) (l1 l2 : list Effect) :
  tokenManager_calls n (l1 ++ l2)
  = tokenManager_calls n l1 ++ tokenManager_calls n l2.
Proof.
  induction l1 as [|e l1 IH]; [done |].
  destruct e; simpl; try done. case_match; simpl; by rewrite IH.
Qed.

(** The three families of storage keys never collide. *)
Lemma happinessKey_sceneKey a c a' c' : happinessKey a c ≠ sceneKey a' c'.
Proof. unfold happinessKey, sceneKey. simpl. discriminate. Qed.

Lemma happinessKey_accessKey a c a' c' : happinessKey a c ≠ accessKey a' c'.
Proof. unfold happinessKey, accessKey. simpl. discriminate. Qed.

Ltac calls_simpl :=
  simpl; rewrite ?tokenManager_calls_app; simpl; rewrite ?app_nil_r.

(** What [playAudio] leaves alone. *)
Lemma playAudio_in_frame ch playing txt o (s : State) :
  store (playAudio_in ch playing txt o s) = store s
  ∧ localStorage (window (playAudio_in ch playing txt o s))
    = localStorage (window s)
  ∧ clock (window (playAudio_in ch playing txt o s)) = clock (window s)
  ∧ tokenManager (window (playAudio_in ch playing txt o s))
    = tokenManager (window s)
  ∧ isTransitioning (playAudio_in ch playing txt o s) = isTransitioning s
  ∧ showEndPopup (playAudio_in ch playing txt o s) = showEndPopup s
  ∧ (∀ n, tokenManager_calls n (log (window (playAudio_in ch playing txt o s)))
          = tokenManager_calls n (log (window s)))
  ∧ (timers (playAudio_in ch playing txt o s) = timers s
     ∨ timers (playAudio_in ch playing txt o s)
       = timers s ++ [Build_Timer (clock (window s) + 5000) ClearError]).
Proof.
  unfold playAudio_in. repeat case_match; repeat split; auto;
    intros; calls_simpl; done.
Qed.

Lemma applyResponse_frame ch playing tts r (s : State) :
  store (applyResponse ch playing tts r s) = addMessage Assistant r (store s)
  ∧ localStorage (window (applyResponse ch playing tts r s))
    = localStorage (window s)
  ∧ clock (window (applyResponse ch playing tts r s)) = clock (window s)
  ∧ tokenManager (window (applyResponse ch playing tts r s))
    = tokenManager (window s)
  ∧ isTransitioning (applyResponse ch playing tts r s) = isTransitioning s
  ∧ showEndPopup (applyResponse ch playing tts r s) = showEndPopup s
  ∧ (∀ n, tokenManager_calls n (log (window (applyResponse ch playing tts r s)))
          = tokenManager_calls n (log (window s)))
  ∧ (timers (applyResponse ch playing tts r s) = timers s
     ∨ timers (applyResponse ch playing tts r s)
       = timers s ++ [Build_Timer (clock (window s) + 5000) ClearError]).
Proof.
  unfold applyResponse.
  repeat case_match;
    try (repeat split; auto; done);
    match goal with
    | |- context [playAudio_in ?c ?p ?t ?o ?x] =>
        destruct (playAudio_in_frame c p t o x)
          as (-> & -> & -> & -> & -> & -> & Hcalls & Htimers)
    end;
    repeat split; auto.
Qed.

(** The messages, the happiness and the stored happiness after the
    exchange; nothing else that matters to the progress of the scene
    has changed. *)
Lemma deliver_frame tts addr sel opt (r s : State) :
  store (deliver tts addr sel opt r s)
  = (let awarded :=
       match points opt with
       | Some p => updateHappiness sel p (addMessage User (text opt) (store s))
       | None => addMessage User (text opt) (store s)
       end in
     match response opt with
     | Some resp => addMessage Assistant resp awarded
     | None => awarded
     end)
  ∧ localStorage (window (deliver tts addr sel opt r s))
    = match points opt with
      | Some p =>
          <[happinessKey addr sel :=
              Number_toString
                (Z.min 100
                   (Z.max 0 (num_or (happiness (store r) !! sel) 50 + p)))]>
            (localStorage (window s))
      | None => localStorage (window s)
      end
  ∧ clock (window (deliver tts addr sel opt r s)) = clock (window s)
  ∧ tokenManager (window (deliver tts addr sel opt r s))
    = tokenManager (window s)
  ∧ isTransitioning (deliver tts addr sel opt r s) = isTransitioning s
  ∧ showEndPopup (deliver tts addr sel opt r s) = showEndPopup s
  ∧ (∀ n, tokenManager_calls n (log (window (deliver tts addr sel opt r s)))
          = tokenManager_calls n (log (window s)))
  ∧ (timers (deliver tts addr sel opt r s) = timers s
     ∨ timers (deliver tts addr sel opt r s)
       = timers s ++ [Build_Timer (clock (window s) + 5000) ClearError]).
Proof.
  unfold deliver, applyPoints.
  destruct (points opt) as [p|]; destruct (response opt) as [resp|];
    try (repeat split; auto; intros; calls_simpl; done);
    match goal with
    | |- context [applyResponse ?c ?pl ?t ?rr ?x] =>
        destruct (applyResponse_frame c pl t rr x)
          as (-> & -> & -> & -> & -> & -> & Hcalls & Htimers)
    end;
    repeat split; auto; intros; rewrite Hcalls; calls_simpl; done.
Qed.

Lemma revoke_stored_access_frame key (s : State) :
  store (revoke_stored_access key s) = store s
  ∧ (∀ k, k ≠ key →
       localStorage (window (revoke_stored_access key s)) !! k
       = localStorage (window s) !! k)
  ∧ isTransitioning (revoke_stored_access key s) = isTransitioning s
  ∧ showEndPopup (revoke_stored_access key s) = showEndPopup s
  ∧ timers (revoke_stored_access key s) = timers s
  ∧ (∀ n, tokenManager_calls n (log (window (revoke_stored_access key s)))
          = tokenManager_calls n (log (window s))).
Proof.
  unfold revoke_stored_access.
  repeat case_match; repeat split; auto; intros; calls_simpl;
    try done; by rewrite lookup_insert_ne.
Qed.

Lemma completeChat_frame mark addr sel (s : State) :
  store (completeChat mark addr sel s) = store s
  ∧ showEndPopup (completeChat mark addr sel s) = true
  ∧ isTransitioning (completeChat mark addr sel s) = isTransitioning s
  ∧ timers (completeChat mark addr sel s) = timers s
  ∧ localStorage (window (completeChat mark addr sel s)) !! sceneKey addr sel
    = None
  ∧ (∀ a c, localStorage (window (completeChat mark addr sel s))
              !! happinessKey a c
            = localStorage (window s) !! happinessKey a c)
  ∧ tokenManager_calls "markChatCompleted"
      (log (window (completeChat mark addr sel s)))
    = tokenManager_calls "markChatCompleted" (log (window s))
      ++ (if tokenManager_initialized (window s) && truthy_s sel
          then [sel] else []).
Proof.
  unfold completeChat.
  destruct (tokenManager_initialized (window s) && truthy_s sel).
  - destruct (revoke_stored_access_frame (accessKey addr sel) s)
      as (Hstore & Hstorage & Htr & Hpop & Htimers & Hcalls).
    destruct mark; simpl; rewrite ?Hstore, ?Htr, ?Htimers;
      (repeat split; auto;
       [ by rewrite lookup_delete_eq
       | intros a c; rewrite lookup_delete_ne
           by (apply not_eq_sym, happinessKey_sceneKey);
         apply Hstorage, happinessKey_accessKey
       | calls_simpl; by rewrite Hcalls ]).
  - simpl. repeat split; auto.
    + by rewrite lookup_delete_eq.
    + intros a c. by rewrite lookup_delete_ne
        by (apply not_eq_sym, happinessKey_sceneKey).
    + calls_simpl. done.
Qed.

(** The second half of [sendOption], over any state [d] the exchange
    may have left. *)
Lemma progress_below_frame (scene : Z) (addr sel : string) (d : State) :
  store (setShowOptions false
           (setInput EmptyString (beginTransition scene addr sel d)))
  = store d
  ∧ localStorage
      (window (setShowOptions false
                 (setInput EmptyString (beginTransition scene addr sel d))))
    = <[sceneKey addr sel := Number_toString (scene + 1)]>
        (localStorage (window d))
  ∧ isTransitioning
      (setShowOptions false
         (setInput EmptyString (beginTransition scene addr sel d))) = true
  ∧ timers (setShowOptions false
              (setInput EmptyString (beginTransition scene addr sel d)))
    = timers d ++ [Build_Timer (clock (window d) + 1000)
                     (AdvanceScene (scene + 1))]
  ∧ showEndPopup
      (setShowOptions false
         (setInput EmptyString (beginTransition scene addr sel d)))
    = showEndPopup d
  ∧ hasAccess
      (setShowOptions false
         (setInput EmptyString (beginTransition scene addr sel d)))
    = hasAccess d
  ∧ (∀ n, tokenManager_calls n
            (log (window (setShowOptions false
                            (setInput EmptyString
                               (beginTransition scene addr sel d)))))
          = tokenManager_calls n (log (window d))).
Proof.
  repeat split. intros n. simpl. rewrite tokenManager_calls_app. simpl.
  apply app_nil_r.
Qed.

Lemma progress_end_frame (mark : CallOutcome) (addr sel : string) (d : State) :
  store (setShowOptions false
           (setInput EmptyString (completeChat mark addr sel d)))
  = store d
  ∧ showEndPopup
      (setShowOptions false
         (setInput EmptyString (completeChat mark addr sel d))) = true
  ∧ isTransitioning
      (setShowOptions false
         (setInput EmptyString (completeChat mark addr sel d)))
    = isTransitioning d
  ∧ timers (setShowOptions false
              (setInput EmptyString (completeChat mark addr sel d)))
    = timers d
  ∧ localStorage
      (window (setShowOptions false
                 (setInput EmptyString (completeChat mark addr sel d))))
      !! sceneKey addr sel = None
  ∧ (∀ a c,
       localStorage
         (window (setShowOptions false
                    (setInput EmptyString (completeChat mark addr sel d))))
         !! happinessKey a c
       = localStorage (window d) !! happinessKey a c)
  ∧ tokenManager_calls "markChatCompleted"
      (log (window (setShowOptions false
                      (setInput EmptyString (completeChat mark addr sel d)))))
    = tokenManager_calls "markChatCompleted" (log (window d))
      ++ (if tokenManager_initialized (window d) && truthy_s sel
          then [sel] else [])
  ∧ hasAccess
      (setShowOptions false
         (setInput EmptyString (completeChat mark addr sel d)))
    = if tokenManager_initialized (window d) && truthy_s sel then
        match mark with
        | Returned => false
        | Thrown => hasAccess d
        end
      else hasAccess d.
Proof.
  destruct (completeChat_frame mark addr sel d)
    as (H1 & H2 & H3 & H4 & H5 & H6 & H7).
  pose proof (hasAccess_completeChat mark addr sel d) as H8.
  repeat split; assumption.
Qed.



(** ** The call cut at its wait *)










End ChatFacts.

(** * Facts about the welcome survey *)

Section SurveyFacts.
Import Survey.
Context `{!Runtime}.

Lemma survey_advance_to_last (t : Z) (x : Timer Callback)
    (l : list (Timer Callback)) (s : State) :
  timers s = l ++ [x] → deadline x = t →
  ∃ mid, advance_to t s
         = in_window (set_clock (Z.max (clock (window s)) t))
             (run_callback (callback x) mid).
Proof.
  intros Hl Hx. unfold advance_to. rewrite Hl.
  rewrite (due_timers_last t x l Hx), foldl_app. simpl. eauto.
Qed.

(** C6.  Without a selected goal, or while a submission is in progress,
    the submit button of the daily-goal page is disabled wherever the
    page shows it, and [handleSubmit] returns at once: the state with
    its storage, timers and log (so also the requests sent) is exactly
    what it was. *)
Theorem submit_without_goal_is_inert (api : ApiOutcome) (s : State) :
  truthy (dailyGoal s) = false ∨ isSubmitting s = true →
  handleSubmit api s = s
  ∧ click_submit api s = s
  ∧ (∀ p, render s = GoalPage p → submitDisabled p = true).
Proof.
  intros Hguard.
  assert (negb (truthy (dailyGoal s)) || isSubmitting s = true) as Hg.
  { destruct Hguard as [-> | ->]; [done | by rewrite orb_true_r]. }
  unfold handleSubmit, click_submit, render. rewrite Hg.
  repeat split.
  - by destruct (showLoadingScreen s).
  - intros p. destruct (showLoadingScreen s); [done |].
    intros [= <-]. done.
Qed.

(** What a submission that passed the guard leaves, by what local
    storage accepts. *)
Lemma handleSubmit_passed (api : ApiOutcome) (s : State) :
  truthy (dailyGoal s) = true →
  isSubmitting s = false →
  handleSubmit api s
  = (let s1 := setShowLoadingScreen true (setIsSubmitting true s) in
     let s2 :=
       if storageAccepts s "lingobabe_survey_data"
       then in_window (setItem "lingobabe_survey_data"
                         (JSON_stringify (survey_json (surveyData s)))) s1
       else in_window (emit (ConsoleWarn "Could not save to localStorage:")) s1 in
     let s3 := in_window (emit (Fetch (survey_request (surveyData s)))) s2 in
     let caught :=
       in_window (emit (ConsoleError "Survey submission error:")) s3 in
     if storageAccepts s "lingobabe_survey_completed" then
       match api with
       | Responded _ true =>
           setTimeout (PushRoute "/welcome-survey/success") 1500
             (in_window (setItem "lingobabe_survey_completed" "true") s3)
       | _ =>
           in_window (router_push "/welcome-survey/success")
             (in_window (setItem "lingobabe_survey_completed" "true") caught)
       end
     else caught).
Proof.
  intros Hgoal Hsub.
  unfold handleSubmit, submission_caught, try_setItem.
  rewrite Hgoal, Hsub.
  unfold survey_data_key, survey_completed_key, success_path.
  cbv zeta. cbn [negb orb].
  change (storageAccepts (setShowLoadingScreen true (setIsSubmitting true s)))
    with (storageAccepts s).
  destruct (storageAccepts s "lingobabe_survey_data");
    repeat match goal with
           | |- context [storageAccepts (in_window ?f ?x)] =>
               change (storageAccepts (in_window f x)) with (storageAccepts x)
           | |- context [storageAccepts
                           (setShowLoadingScreen ?b (setIsSubmitting ?c ?x))] =>
               change (storageAccepts
                         (setShowLoadingScreen b (setIsSubmitting c x)))
                 with (storageAccepts x)
           end;
    destruct (storageAccepts s "lingobabe_survey_completed");
    by destruct api as [|ok [|]].
Qed.

(** C9, as the code has it.  A submission that passes the guard first
    tries to write the JSON text of the survey answers, property by
    property as they stand, under [lingobabe_survey_data]: the write is
    logged when local storage accepts it and a warning is logged when it
    throws.  Next, in both cases, it sends one request: a POST to
    /api/submit-survey whose body is that same text.  No other request
    follows, and the text is in storage afterwards when the write was
    accepted; when it was not, the key holds what it held. *)
Theorem submit_posts_the_answers (api : ApiOutcome) (s : State) :
  truthy (dailyGoal s) = true →
  isSubmitting s = false →
  ∃ after,
    log (window (handleSubmit api s))
    = log (window s)
      ++ (if storageAccepts s "lingobabe_survey_data"
          then StorageSet "lingobabe_survey_data"
                 (JSON_stringify
                    (JObj (map (λ kv, (kv.1, JStr kv.2)) (surveyData s))))
          else ConsoleWarn "Could not save to localStorage:")
      :: Fetch {| url := "/api/submit-survey"; method := "POST";
                  headers := [("Content-Type", "application/json")];
                  body := JSON_stringify
                            (JObj (map (λ kv, (kv.1, JStr kv.2)) (surveyData s)));
                  cache := Some "no-store" |}
      :: after
    ∧ Forall (λ e, ∀ r, e ≠ Fetch r) after
    ∧ localStorage (window (handleSubmit api s)) !! "lingobabe_survey_data"
      = if storageAccepts s "lingobabe_survey_data"
        then Some (JSON_stringify
                     (JObj (map (λ kv, (kv.1, JStr kv.2)) (surveyData s))))
        else localStorage (window s) !! "lingobabe_survey_data".
Proof.
  intros Hgoal Hsub. rewrite (handleSubmit_passed api s Hgoal Hsub).
  destruct (storageAccepts s "lingobabe_survey_data");
    destruct (storageAccepts s "lingobabe_survey_completed");
    destruct api as [|ok [|]]; simpl; rewrite <- ?app_assoc; simpl;
    eexists; (split; [reflexivity |]);
    (split; [repeat (apply Forall_cons_2; [done |]); apply Forall_nil_2 |]);
    rewrite ?(lookup_insert_ne _ "lingobabe_survey_completed") by done;
    by rewrite ?lookup_insert_eq.
Qed.

(** C5, as the code has it.  The handler is invoked by a click on the
    submit button, which is on the page and enabled only with a goal
    selected and no submission in progress.  When local storage accepts
    the write of [lingobabe_survey_completed], such a submission
    completes whatever the request does: the key is set to 'true'; when
    the response cannot be had or read the router goes to the success
    page at once, and otherwise a timeout of 1500 ms is registered after
    which the router is on the success page.  The success page sets the
    key again when it mounts, under the same condition. *)
Theorem submit_completes_whatever_the_api (api : ApiOutcome) (s : State)
    (p : PageProps) :
  render s = GoalPage p →
  submitDisabled p = false →
  storageAccepts s "lingobabe_survey_completed" = true →
  click_submit api s = handleSubmit api s
  ∧ truthy (dailyGoal s) = true
  ∧ localStorage (window (handleSubmit api s)) !! "lingobabe_survey_completed"
    = Some "true"
  ∧ match api with
    | Responded _ true =>
        timers (handleSubmit api s)
        = timers s ++ [Build_Timer (clock (window s) + 1500)
                         (PushRoute "/welcome-survey/success")]
        ∧ location (window (advance_to (clock (window s) + 1500)
                              (handleSubmit api s)))
          = "/welcome-survey/success"
    | _ => location (window (handleSubmit api s)) = "/welcome-survey/success"
    end
  ∧ (∀ st, storageAccepts st "lingobabe_survey_completed" = true →
           localStorage (window (SuccessPage_effect st))
             !! "lingobabe_survey_completed" = Some "true").
Proof.
  intros Hpage Hbutton Hacc.
  assert (truthy (dailyGoal s) = true ∧ isSubmitting s = false)
    as [Hgoal Hsub].
  { unfold render in Hpage. destruct (showLoadingScreen s); [done |].
    injection Hpage as <-. simpl in Hbutton.
    apply orb_false_iff in Hbutton as [Hg Hs].
    by apply negb_false_iff in Hg. }
  split.
  { unfold click_submit. by rewrite Hpage, Hbutton. }
  split; [exact Hgoal |].
  assert (∀ st, storageAccepts st "lingobabe_survey_completed" = true →
                localStorage (window (SuccessPage_effect st))
                  !! "lingobabe_survey_completed" = Some "true") as Hmount.
  { intros st Hst. unfold SuccessPage_effect, try_setItem.
    unfold survey_completed_key. rewrite Hst. simpl.
    apply lookup_insert_eq. }
  rewrite (handleSubmit_passed api s Hgoal Hsub). rewrite Hacc.
  destruct api as [|ok [|]].
  - simpl. by rewrite lookup_insert_eq.
  - match goal with
    | |- context [advance_to _ ?out] =>
        assert (timers out
                = timers s ++ [Build_Timer (clock (window s) + 1500)
                                 (PushRoute "/welcome-survey/success")]) as Ht
    end.
    { by destruct (storageAccepts s "lingobabe_survey_data"). }
    destruct (survey_advance_to_last (clock (window s) + 1500) _ _ _ Ht eq_refl)
      as [mid Hmid].
    rewrite Hmid. split; [| done].
    simpl. by rewrite lookup_insert_eq.
  - simpl. by rewrite lookup_insert_eq.
Qed.

End SurveyFacts.

(** * The properties on concrete inputs *)

Section ChatExamples.
Import ChatInterface Examples.

(** C1 on a run: once the check has reported access, the chat view is
    rendered, and the run holds the event that granted it. *)
Lemma chat_view_requires_access_witness :
  truthy (selectedCharacter
            (store (run granted_run (mount (store_at 1) (Some wallet)
                                       (window0 ready))))) = true
  ∧ isCheckingAccess
      (run granted_run (mount (store_at 1) (Some wallet) (window0 ready)))
    = false
  ∧ hasAccess
      (run granted_run (mount (store_at 1) (Some wallet) (window0 ready)))
    = true
  ∧ occurs completes_check granted_run
      (mount (store_at 1) (Some wallet) (window0 ready))
  ∧ occurs grants_access granted_run
      (mount (store_at 1) (Some wallet) (window0 ready)).
Proof.
  split; [reflexivity |].
  apply (chat_view_requires_access (store_at 1) (Some wallet) (window0 ready)
           granted_run).
  reflexivity.
Defined.

(** C4 on an input: no token manager on the window. *)
Lemma checkAccess_failure_is_no_access_witness :
  tokenManager_initialized
    (window (mount (store_at 1) (Some wallet) (window0 None))) = false
  ∧ hasAccess (checkAccess (AccessResolved true)
                 (mount (store_at 1) (Some wallet) (window0 None))) = false
  ∧ isCheckingAccess
      (checkAccess (AccessResolved true)
         (mount (store_at 1) (Some wallet) (window0 None))) = false.
Proof.
  split; [reflexivity |].
  destruct (checkAccess_failure_is_no_access (AccessResolved true)
              (mount (store_at 1) (Some wallet) (window0 None)))
    as (Hacc & Hchk & _).
  - left. reflexivity.
  - split; assumption.
Defined.

(** C10 on an input: a text that is no option of scene 1. *)
Lemma handleSend_rejects_atomically_witness :
  selectedOption (chatting ready 1 "zai jian") = None
  ∧ ∃ msg,
      msg ≠ EmptyString
      ∧ error (handleSend PlayStarted Returned (chatting ready 1 "zai jian"))
        = Some msg
      ∧ store (handleSend PlayStarted Returned (chatting ready 1 "zai jian"))
        = store (chatting ready 1 "zai jian")
      ∧ window (handleSend PlayStarted Returned (chatting ready 1 "zai jian"))
        = window (chatting ready 1 "zai jian").
Proof.
  split; [vm_compute; reflexivity |].
  destruct (handleSend_rejects_atomically PlayStarted Returned
              (chatting ready 1 "zai jian"))
    as (msg & Hmsg & Herr & _ & Hstore & Hwin & _).
  - left. intros opt Hin.
    change (currentSceneOptions (chatting ready 1 "zai jian"))
      with [greet; nod] in Hin.
    apply elem_of_cons in Hin as [-> | Hin]; [vm_compute; discriminate |].
    apply elem_of_cons in Hin as [-> | Hin]; [vm_compute; discriminate |].
    by apply elem_of_nil in Hin.
  - exists msg. repeat split; assumption.
Defined.





(** C7 as stated fails: the second banner goes up at 4000 ms and is
    cleared at 5000 ms, by the timeout of the first, one second after
    it appeared. *)
Lemma second_banner_is_cleared_early :
  clock (window second_banner) = 4000
  ∧ showError second_banner = true
  ∧ error second_banner = Some "second"
  ∧ clock (window after_first_timeout) = 5000
  ∧ showError after_first_timeout = false
  ∧ error after_first_timeout = None
  ∧ timers after_first_timeout = [Build_Timer 9000 ClearError].
Proof. vm_compute. repeat split; reflexivity. Qed.

(** C7 on an input: a single banner stays up until its own timeout. *)
Lemma showErrorMessage_is_transient_witness :
  showError (advance_to 4999 first_banner) = true
  ∧ error (advance_to 4999 first_banner) = Some "first"
  ∧ showError (advance_to 5000 first_banner) = false
  ∧ error (advance_to 5000 first_banner) = None.
Proof.
  destruct (showErrorMessage_is_transient "first"
              (chatting None 1 EmptyString))
    as (_ & _ & _ & _ & Hgone & Hnone & Hstays).
  destruct (Hstays (Forall_nil_2 _) 4999) as [Hup Htext];
    [vm_compute; reflexivity |].
  repeat split; assumption.
Defined.

End ChatExamples.

Section SurveyExamples.
Import Survey Examples.

(** C6 on an input: a submission is already in progress. *)
Lemma submit_without_goal_is_inert_witness :
  isSubmitting submitting = true
  ∧ handleSubmit (Responded true true) submitting = submitting.
Proof.
  split; [reflexivity |].
  apply (submit_without_goal_is_inert (Responded true true) submitting).
  right. reflexivity.
Defined.

(** C9 on an input: the answers with a goal of ten minutes a day, in a
    browser that accepts the writes. *)
Lemma submit_posts_the_answers_witness :
  truthy (dailyGoal goal_chosen) = true
  ∧ isSubmitting goal_chosen = false
  ∧ ∃ after,
      log (window (handleSubmit RequestFailed goal_chosen))
      = log (window goal_chosen)
        ++ StorageSet "lingobabe_survey_data"
             (JSON_stringify
                (JObj (map (λ kv, (kv.1, JStr kv.2)) (surveyData goal_chosen))))
        :: Fetch {| url := "/api/submit-survey"; method := "POST";
                    headers := [("Content-Type", "application/json")];
                    body := JSON_stringify
                              (JObj (map (λ kv, (kv.1, JStr kv.2))
                                       (surveyData goal_chosen)));
                    cache := Some "no-store" |}
        :: after
      ∧ Forall (λ e, ∀ r, e ≠ Fetch r) after
      ∧ localStorage (window (handleSubmit RequestFailed goal_chosen))
          !! "lingobabe_survey_data"
        = Some (JSON_stringify
                  (JObj (map (λ kv, (kv.1, JStr kv.2))
                           (surveyData goal_chosen)))).
Proof.
  split; [reflexivity |]. split; [reflexivity |].
  apply (submit_posts_the_answers RequestFailed goal_chosen); reflexivity.
Defined.

(** C9 as stated fails: with a local storage that throws on every write
    the request goes out with the answers as its body, after a warning
    and no write: nothing is stored under [lingobabe_survey_data]. *)
Lemma submit_with_full_storage_posts_without_backup :
  truthy (dailyGoal goal_chosen_storage_full) = true
  ∧ isSubmitting goal_chosen_storage_full = false
  ∧ ChatInterface.requests
      (log (window (handleSubmit (Responded true true)
                      goal_chosen_storage_full)))
    = [survey_request (surveyData goal_chosen_storage_full)]
  ∧ log (window (handleSubmit (Responded true true) goal_chosen_storage_full))
      !! 0%nat
    = Some (ConsoleWarn "Could not save to localStorage:")
  ∧ Forall (λ e, ∀ v, e ≠ StorageSet "lingobabe_survey_data" v)
      (log (window (handleSubmit (Responded true true)
                      goal_chosen_storage_full)))
  ∧ localStorage
      (window (handleSubmit (Responded true true) goal_chosen_storage_full))
      !! "lingobabe_survey_data" = None.
Proof.
  vm_compute.
  repeat split; try reflexivity.
  repeat (apply Forall_cons_2; [done |]). apply Forall_nil_2.
Qed.

(** C5 on an input: the request fails, the survey completes. *)
Lemma submit_completes_whatever_the_api_witness :
  ∃ p,
    render goal_chosen = GoalPage p
    ∧ submitDisabled p = false
    ∧ storageAccepts goal_chosen "lingobabe_survey_completed" = true
    ∧ click_submit RequestFailed goal_chosen
      = handleSubmit RequestFailed goal_chosen
    ∧ localStorage (window (handleSubmit RequestFailed goal_chosen))
        !! "lingobabe_survey_completed" = Some "true"
    ∧ location (window (handleSubmit RequestFailed goal_chosen))
      = "/welcome-survey/success".
Proof.
  eexists. split; [reflexivity |]. split; [reflexivity |].
  split; [reflexivity |].
  destruct (submit_completes_whatever_the_api RequestFailed goal_chosen _
              eq_refl eq_refl eq_refl)
    as (Hclick & _ & Hkey & Hloc & _).
  split; [exact Hclick |]. split; assumption.
Defined.

(** C5 as stated fails: the submit button is clicked with a goal
    selected, in a browser whose local storage throws on every write.
    The request is sent and answered, yet the completion key is not set
    and the router stays on the daily-goal page, also after the 1500 ms
    and long after; the page is left on its loading screen. *)
Lemma submit_with_full_storage_does_not_complete :
  truthy (dailyGoal goal_chosen_storage_full) = true
  ∧ click_submit (Responded true true) goal_chosen_storage_full
    = handleSubmit (Responded true true) goal_chosen_storage_full
  ∧ ChatInterface.requests
      (log (window (handleSubmit (Responded true true)
                      goal_chosen_storage_full)))
    = [survey_request (surveyData goal_chosen_storage_full)]
  ∧ localStorage
      (window (handleSubmit (Responded true true) goal_chosen_storage_full))
      !! "lingobabe_survey_completed" = None
  ∧ location (window (handleSubmit (Responded true true)
                        goal_chosen_storage_full))
    = "/welcome-survey/daily-goal"
  ∧ location (window (advance_to 1500
                        (handleSubmit (Responded true true)
                           goal_chosen_storage_full)))
    = "/welcome-survey/daily-goal"
  ∧ location (window (advance_to 3600000
                        (handleSubmit (Responded true true)
                           goal_chosen_storage_full)))
    = "/welcome-survey/daily-goal"
  ∧ render (advance_to 3600000
              (handleSubmit (Responded true true) goal_chosen_storage_full))
    = LoadingScreen.
Proof. vm_compute. repeat split; reflexivity. Qed.

End SurveyExamples.

(** * Further facts about the chat interface *)

Section ChatInvariants.
Import ChatInterface.
Context `{!Runtime} `{!ChatModules}.

(** ** Raised flags and their timeouts *)

Lemma steady_quiet (s s' : State) :
  clock (window s') = clock (window s) →
  timers s' = timers s →
  (showError s' = true → showError s = true) →
  (isTransitioning s' = true → isTransitioning s = true) →
  steady s s'.
Proof.
  intros Hc Ht He Hi. repeat split; auto.
  intros tm. by rewrite Ht.
Qed.

Lemma steady_trans (s1 s2 s3 : State) :
  steady s1 s2 → steady s2 s3 → steady s1 s3.
Proof.
  intros (Hc1 & Ht1 & He1 & Hi1) (Hc2 & Ht2 & He2 & Hi2).
  rewrite Hc1 in He2, Hi2.
  repeat split.
  - congruence.
  - auto.
  - intros H3. destruct (He2 H3) as [H2 | Hin]; [| by right].
    destruct (He1 H2) as [? | Hin]; [by left | right; auto].
  - intros H3. destruct (Hi2 H3) as [H2 | Hin]; [| by right].
    destruct (Hi1 H2) as [? | [n Hin]]; [by left | right; eauto].
Qed.

Lemma steady_showErrorMessage (msg : string) (s : State) :
  steady s (showErrorMessage msg s).
Proof.
  repeat split; simpl; auto.
  - intros tm Hin. apply elem_of_app. by left.
  - intros _. right. apply elem_of_app. right. by apply list_elem_of_singleton.
Qed.

Lemma steady_beginTransition (scene : Z) (addr sel : string) (s : State) :
  steady s (beginTransition scene addr sel s).
Proof.
  repeat split; simpl; auto.
  - intros tm Hin. apply elem_of_app. by left.
  - intros _. right. exists (scene + 1). apply elem_of_app. right.
    by apply list_elem_of_singleton.
Qed.

Create HintDb steady.
#[local] Hint Resolve steady_showErrorMessage steady_beginTransition : steady.

Ltac steady_last :=
  first [ solve [auto with steady]
        | apply steady_quiet; [reflexivity | reflexivity | done | done] ].

Ltac steady_peel :=
  repeat lazymatch goal with
    | |- steady ?s ?s => steady_last
    | |- steady _ (?f ?x) => apply (steady_trans _ x); [| steady_last]
    end.

Lemma steady_playAudio_in ch playing txt o (s : State) :
  steady s (playAudio_in ch playing txt o s).
Proof. unfold playAudio_in. repeat case_match; steady_peel. Qed.
#[local] Hint Resolve steady_playAudio_in : steady.

Lemma steady_applyResponse ch playing tts r (s : State) :
  steady s (applyResponse ch playing tts r s).
Proof. unfold applyResponse. repeat case_match; steady_peel. Qed.
#[local] Hint Resolve steady_applyResponse : steady.

Lemma steady_applyPoints happy addr sel p (s : State) :
  steady s (applyPoints happy addr sel p s).
Proof. unfold applyPoints. steady_peel. Qed.
#[local] Hint Resolve steady_applyPoints : steady.

Lemma steady_deliver tts addr sel opt (r s : State) :
  steady s (deliver tts addr sel opt r s).
Proof. unfold deliver. repeat case_match; steady_peel. Qed.
#[local] Hint Resolve steady_deliver : steady.

Lemma steady_revoke_stored_access key (s : State) :
  steady s (revoke_stored_access key s).
Proof. unfold revoke_stored_access. repeat case_match; steady_peel. Qed.
#[local] Hint Resolve steady_revoke_stored_access : steady.

Lemma steady_completeChat mark addr sel (s : State) :
  steady s (completeChat mark addr sel s).
Proof. unfold completeChat. repeat case_match; steady_peel. Qed.
#[local] Hint Resolve steady_completeChat : steady.

Lemma steady_handleSend tts mark (s : State) :
  steady s (handleSend tts mark s).
Proof.
  destruct (selectedOption s) as [opt|] eqn:Hopt.
  - destruct (handleSend_selected tts mark s opt Hopt)
      as (addr & sel & _ & _ & _ & _ & _ & _ & ->).
    unfold sendOption. case_match; steady_peel.
  - destruct (handleSend_rejected tts mark s Hopt) as [-> | ->];
      apply steady_showErrorMessage.
Qed.

Lemma steady_armed (s s' : State) : steady s s' → armed s → armed s'.
Proof.
  intros (Hc & Ht & He & Hi) [Ae Ai]. unfold armed. rewrite Hc. split.
  - intros H'. destruct (He H') as [Hs | Hin].
    + destruct (Ae Hs) as (tm & Hin & Hcb & Hd). eauto.
    + eexists. split; [exact Hin |]. simpl. split; [done | lia].
  - intros H'. destruct (Hi H') as [Hs | [n Hin]].
    + destruct (Ai Hs) as (tm & n & Hin & Hcb & Hd). eauto 6.
    + eexists _, n. split; [exact Hin |]. simpl. split; [done | lia].
Qed.

(** A callback never raises a flag, and the one made for a flag lowers
    it. *)
Lemma showError_after_callbacks (l : list (Timer Callback)) (s : State) :
  showError (foldl (λ st tm, run_callback (callback tm) st) s l) = true →
  showError s = true ∧ ∀ tm, tm ∈ l → callback tm ≠ ClearError.
Proof.
  revert s. induction l as [|tm l IH]; intros s Hs; simpl in Hs.
  - split; [done |]. intros tm Hin. by apply elem_of_nil in Hin.
  - destruct (IH _ Hs) as [Hrun Hl].
    destruct (callback tm) as [|n] eqn:Hcb; [done |].
    split; [done |]. intros tm' Hin.
    apply elem_of_cons in Hin as [-> | Hin]; [by rewrite Hcb | auto].
Qed.

Lemma isTransitioning_after_callbacks (l : list (Timer Callback)) (s : State) :
  isTransitioning (foldl (λ st tm, run_callback (callback tm) st) s l) = true →
  isTransitioning s = true ∧ ∀ tm n, tm ∈ l → callback tm ≠ AdvanceScene n.
Proof.
  revert s. induction l as [|tm l IH]; intros s Hs; simpl in Hs.
  - split; [done |]. intros tm n Hin. by apply elem_of_nil in Hin.
  - destruct (IH _ Hs) as [Hrun Hl].
    destruct (callback tm) as [|n] eqn:Hcb; [| done].
    split; [done |]. intros tm' n' Hin.
    apply elem_of_cons in Hin as [-> | Hin]; [by rewrite Hcb | eauto].
Qed.

Lemma timers_advance_to (t : Z) (s : State) :
  timers (advance_to t s) = pending_timers t (timers s).
Proof.
  unfold advance_to. simpl.
  rewrite (foldl_run_callback timers); [done |]. by intros [].
Qed.

Lemma clock_advance_to (t : Z) (s : State) :
  clock (window (advance_to t s)) = Z.max (clock (window s)) t.
Proof. reflexivity. Qed.

Lemma showError_advance_to (t : Z) (s : State) :
  showError (advance_to t s) = true →
  showError s = true
  ∧ ∀ tm, tm ∈ timers s → callback tm = ClearError → ¬ deadline tm ≤ t.
Proof.
  unfold advance_to. simpl. intros Hs.
  destruct (showError_after_callbacks _ _ Hs) as [Hshow Hdue].
  split; [done |]. intros tm Hin Hcb Hle.
  apply (Hdue tm); [| done]. apply due_timers_elem. done.
Qed.

Lemma isTransitioning_advance_to (t : Z) (s : State) :
  isTransitioning (advance_to t s) = true →
  isTransitioning s = true
  ∧ ∀ tm n, tm ∈ timers s → callback tm = AdvanceScene n → ¬ deadline tm ≤ t.
Proof.
  unfold advance_to. simpl. intros Hs.
  destruct (isTransitioning_after_callbacks _ _ Hs) as [Htr Hdue].
  split; [done |]. intros tm n Hin Hcb Hle.
  apply (Hdue tm n); [| done]. apply due_timers_elem. done.
Qed.

Lemma armed_advance_to (t : Z) (s : State) : armed s → armed (advance_to t s).
Proof.
  intros [Ae Ai]. split.
  - intros Hs. destruct (showError_advance_to t s Hs) as [Hshow Hnot].
    destruct (Ae Hshow) as (tm & Hin & Hcb & Hd).
    exists tm. rewrite timers_advance_to, clock_advance_to.
    split; [| split; [done | lia]].
    apply list_elem_of_filter. split; [by apply (Hnot tm) | done].
  - intros Hs. destruct (isTransitioning_advance_to t s Hs) as [Htr Hnot].
    destruct (Ai Htr) as (tm & n & Hin & Hcb & Hd).
    exists tm, n. rewrite timers_advance_to, clock_advance_to.
    split; [| split; [done | lia]].
    apply list_elem_of_filter. split; [by apply (Hnot tm n) | done].
Qed.

Lemma armed_step (e : Event) (s : State) : armed s → armed (step e s).
Proof.
  destruct e; unfold step;
    try (apply steady_armed; steady_last).
  - apply steady_armed. unfold checkAccess_begin.
    repeat case_match; steady_peel.
  - apply steady_armed. unfold checkAccess_settle.
    repeat case_match; steady_peel.
  - apply steady_armed. unfold handleAccessChange.
    repeat case_match; steady_peel.
  - apply steady_armed. unfold handleChatCompleted.
    repeat case_match; steady_peel.
  - apply steady_armed. unfold handlePlayAudio, playAudio.
    case_match; steady_peel.
  - apply steady_armed, steady_handleSend.
  - apply armed_advance_to.
Qed.

Lemma armed_run (st : Store) (addr : option string) (w : Window)
    (es : list Event) :
  armed (run es (mount st addr w)).
Proof.
  induction es as [|e es IH] using rev_ind; [by split |].
  rewrite run_snoc. by apply armed_step.
Qed.

(** X1.  In every state the component reaches from its mount, a visible
    error flag has a pending timeout that clears it no later than 5
    seconds from now, whichever handler raised it; and once those 5
    seconds have passed the banner is off the screen. *)
Theorem error_banner_always_expires (st : Store) (addr : option string)
    (w : Window) (es : list Event) :
  (showError (run es (mount st addr w)) = true →
   ∃ tm, tm ∈ timers (run es (mount st addr w))
         ∧ callback tm = ClearError
         ∧ deadline tm ≤ clock (window (run es (mount st addr w))) + 5000)
  ∧ showError
      (advance_to (clock (window (run es (mount st addr w))) + 5000)
         (run es (mount st addr w))) = false
  ∧ banner
      (chatView
         (advance_to (clock (window (run es (mount st addr w))) + 5000)
            (run es (mount st addr w)))) = None.
Proof.
  destruct (armed_run st addr w es) as [Ae _].
  generalize dependent (run es (mount st addr w)). intros s Ae.
  split; [done |].
  assert (showError (advance_to (clock (window s) + 5000) s) = false) as Hoff.
  { destruct (showError (advance_to _ s)) eqn:Hs; [| done].
    destruct (showError_advance_to _ s Hs) as [Hshow Hnot].
    destruct (Ae Hshow) as (tm & Hin & Hcb & Hd).
    by destruct (Hnot tm Hin Hcb). }
  split; [done |]. unfold chatView. cbn [banner]. by rewrite Hoff.
Qed.

(** X2.  In every state the component reaches from its mount, a raised
    transition flag has a pending timeout that advances the scene and
    lowers the flag no later than 1 second from now; once that second
    has passed the flag is down, so a transition never leaves the Send
    button disabled for good. *)
Theorem transition_always_ends (st : Store) (addr : option string)
    (w : Window) (es : list Event) :
  (isTransitioning (run es (mount st addr w)) = true →
   ∃ tm n, tm ∈ timers (run es (mount st addr w))
           ∧ callback tm = AdvanceScene n
           ∧ deadline tm ≤ clock (window (run es (mount st addr w))) + 1000)
  ∧ isTransitioning
      (advance_to (clock (window (run es (mount st addr w))) + 1000)
         (run es (mount st addr w))) = false.
Proof.
  destruct (armed_run st addr w es) as [_ Ai].
  generalize dependent (run es (mount st addr w)). intros s Ai.
  split; [done |].
  destruct (isTransitioning (advance_to _ s)) eqn:Hs; [| done].
  destruct (isTransitioning_advance_to _ s Hs) as [Htr Hnot].
  destruct (Ai Htr) as (tm & n & Hin & Hcb & Hd).
  by destruct (Hnot tm n Hin Hcb).
Qed.

End ChatInvariants.

Section ChatComposition.
Import ChatInterface.
Context `{!Runtime} `{!ChatModules}.

(** ** The access check and the view *)

(** X3.  One run of [checkAccess] always takes the 'Verifying access...'
    screen away, whatever its outcome; with a character selected the
    chat view follows only when the guard passed and the token manager
    reported access, and it does follow then. *)
Theorem checkAccess_decides_the_view (o : AccessOutcome) (s : State) :
  isCheckingAccess (checkAccess o s) = false
  ∧ render (checkAccess o s) ≠ VerifyingAccess
  ∧ (truthy (selectedCharacter (store s)) = true →
     ∀ p, render (checkAccess o s) = ChatView p →
          access_guard_fails s = false ∧ o = AccessResolved true)
  ∧ (access_guard_fails s = false →
     render (checkAccess (AccessResolved true) s)
     = ChatView (chatView (checkAccess (AccessResolved true) s))).
Proof.
  unfold checkAccess, checkAccess_begin.
  destruct (access_guard_fails s) eqn:Hguard.
  - unfold render. simpl.
    split; [done |]. split; [by repeat case_match |]. split; [| done].
    intros Hsel p. destruct (selectedCharacter (store s)) as [c|]; [| done].
    simpl in Hsel. by rewrite Hsel.
  - unfold access_guard_fails in Hguard.
    apply orb_false_iff in Hguard as [Hguard Hsel].
    apply orb_false_iff in Hguard as [_ Haddr].
    apply negb_false_iff in Hsel, Haddr.
    destruct (address s) as [addr|]; [| done].
    destruct (selectedCharacter (store s)) as [sel|] eqn:Hs; [| done].
    simpl in Hsel.
    split; [by destruct o as [[|]|] |].
    split; [| split].
    + unfold render. destruct o as [[|]|]; simpl; rewrite Hs; simpl;
        rewrite ?Hsel; done.
    + intros _ p. unfold render.
      destruct o as [[|]|]; simpl; rewrite Hs; simpl; rewrite ?Hsel; done.
    + intros _. unfold render. simpl. by rewrite Hs.
Qed.

(** ** The Send button and the guard of [handleSend] *)

Lemma handleSend_blocked (tts : TtsOutcome) (mark : CallOutcome) (s : State) :
  negb (truthy_s (trim (input s))) || isTransitioning s = true →
  handleSend tts mark s = showErrorMessage "Invalid input or connection state" s.
Proof.
  intros Hblocked. unfold handleSend.
  destruct (selectedCharacter (store s)) as [sel|]; [| done].
  destruct (character s); [| done].
  destruct (address s) as [addr|]; [| done].
  destruct (negb (truthy_s (trim (input s)))); simpl in *; [done |].
  rewrite Hblocked. by rewrite orb_true_r.
Qed.

Lemma handleSend_open (tts : TtsOutcome) (mark : CallOutcome) (s : State)
    (ch : Character) :
  negb (truthy_s (trim (input s))) || isTransitioning s = false →
  character s = Some ch →
  truthy (address s) = true →
  ∃ addr sel,
    address s = Some addr ∧ selectedCharacter (store s) = Some sel
    ∧ handleSend tts mark s
      = match findOption (trim (input s)) (currentSceneOptions s) with
        | Some opt => sendOption tts mark addr sel opt s s
        | None => showErrorMessage "Please select a valid response option" s
        end.
Proof.
  intros Hopen Hch Haddr. unfold handleSend. rewrite Hch.
  apply orb_false_iff in Hopen as [Hin Htr].
  unfold character in Hch.
  destruct (selectedCharacter (store s)) as [sel|]; [| done].
  destruct (truthy_s sel) eqn:Hsel; [| done].
  destruct (address s) as [addr|]; [| done]. simpl in Haddr.
  exists addr, sel. by rewrite Hin, Htr, Haddr.
Qed.

(** X4.  The Send button and the handler agree.  Whenever the button is
    rendered disabled, [handleSend] only reports 'Invalid input or
    connection state'; whenever it is enabled, with a valid character
    and a connected wallet, the first guard passes: the option whose
    primary text is the trimmed input is sent, and only the absence of
    such an option is reported. *)
Theorem send_button_agrees_with_guard (tts : TtsOutcome) (mark : CallOutcome)
    (s : State) :
  (sendDisabled (chatView s) = true →
   handleSend tts mark s
   = showErrorMessage "Invalid input or connection state" s)
  ∧ (sendDisabled (chatView s) = false →
     is_Some (character s) →
     truthy (address s) = true →
     ∃ addr sel,
       address s = Some addr ∧ selectedCharacter (store s) = Some sel
       ∧ handleSend tts mark s
         = match findOption (trim (input s)) (currentSceneOptions s) with
           | Some opt => sendOption tts mark addr sel opt s s
           | None =>
               showErrorMessage "Please select a valid response option" s
           end).
Proof.
  split.
  - apply handleSend_blocked.
  - intros Hopen [ch Hch] Haddr. by eapply handleSend_open.
Qed.











(** ** Audio *)

(** X8.  One audio request at a time.  A [playAudio] that starts playing
    raises [audioPlaying], and until [audio.onended] lowers it again
    every further [playAudio] or [handlePlayAudio] returns without a
    request or any other change; a [playAudio] that fails lowers the
    flag itself and raises the banner, so that the user can try
    again. *)
Theorem one_audio_request_at_a_time (txt : string) (o : TtsOutcome)
    (s : State) :
  txt ≠ EmptyString →
  audioPlaying s = false →
  (if tts_failed o then
     audioPlaying (playAudio txt o s) = false
     ∧ showError (playAudio txt o s) = true
     ∧ error (playAudio txt o s)
       = Some "Failed to play audio. Please try again."
   else
     audioPlaying (playAudio txt o s) = true
     ∧ (∀ txt' o', playAudio txt' o' (playAudio txt o s) = playAudio txt o s)
     ∧ (∀ txt' o',
          handlePlayAudio txt' o' (playAudio txt o s) = playAudio txt o s)
     ∧ audioPlaying (audio_ended (playAudio txt o s)) = false).
Proof.
  intros Htxt Hplaying.
  assert (truthy_s txt = true) as Htruthy.
  { unfold truthy_s. by apply negb_true_iff, String.eqb_neq. }
  unfold handlePlayAudio, playAudio, playAudio_in.
  rewrite Htruthy, Hplaying. simpl.
  destruct (tts_failed o); [done |]. simpl.
  repeat split; intros; by rewrite orb_true_r.
Qed.

(** The requests of a log. *)
Lemma requests_app (l1 l2 : list Effect) :
  requests (l1 ++ l2) = requests l1 ++ requests l2.
Proof.
  induction l1 as [|e l1 IH]; [done |].
  destruct e; simpl; by rewrite ?IH.
Qed.

Ltac requests_simpl :=
  simpl; rewrite ?requests_app; simpl; rewrite ?app_nil_r.

Lemma requests_playAudio_in ch playing txt o (s : State) :
  requests (log (window (playAudio_in ch playing txt o s)))
  = requests (log (window s))
    ++ (if truthy_s txt && negb playing then [tts_request txt ch] else []).
Proof.
  unfold playAudio_in.
  destruct (truthy_s txt); destruct playing; simpl; rewrite ?app_nil_r;
    try done.
  destruct (tts_failed o); requests_simpl; done.
Qed.

(** What a reply makes the component say. *)
Lemma requests_applyResponse ch playing tts r (s : State) :
  requests (log (window (applyResponse ch playing tts r s)))
  = requests (log (window s))
    ++ match primaryText r with
       | Some t => if truthy_s t && negb playing then [tts_request t ch] else []
       | None => []
       end.
Proof.
  unfold applyResponse.
  destruct (primaryText r) as [t|].
  - destruct (truthy_s t) eqn:Ht.
    + rewrite requests_playAudio_in, Ht. by repeat case_match.
    + simpl. rewrite app_nil_r. by repeat case_match.
  - rewrite app_nil_r. by repeat case_match.
Qed.

Lemma requests_revoke_stored_access key (s : State) :
  requests (log (window (revoke_stored_access key s)))
  = requests (log (window s)).
Proof.
  unfold revoke_stored_access. repeat case_match; requests_simpl; done.
Qed.

Lemma requests_completeChat mark addr sel (s : State) :
  requests (log (window (completeChat mark addr sel s)))
  = requests (log (window s)).
Proof.
  unfold completeChat.
  repeat case_match; requests_simpl;
    rewrite ?requests_revoke_stored_access; done.
Qed.

(** X6.  What a send says aloud.  [handleSend] adds at most one request
    to the log: the text-to-speech request for the primary text of the
    reply, and only when the send is accepted, the chosen option has a
    reply with a non-empty primary text, and no audio was playing when
    the handler started.  In every other case it sends nothing. *)
Theorem send_speaks_the_reply (tts : TtsOutcome) (mark : CallOutcome)
    (s : State) :
  requests (log (window (handleSend tts mark s)))
  = requests (log (window s))
    ++ match selectedOption s with
       | Some opt =>
           match response opt with
           | Some r =>
               match primaryText r with
               | Some t =>
                   if truthy_s t && negb (audioPlaying s)
                   then [tts_request t (character s)] else []
               | None => []
               end
           | None => []
           end
       | None => []
       end.
Proof.
  destruct (selectedOption s) as [opt|] eqn:Hopt.
  - destruct (handleSend_selected tts mark s opt Hopt)
      as (addr & sel & _ & _ & _ & _ & _ & _ & ->).
    assert (requests (log (window (deliver tts addr sel opt s s)))
            = requests (log (window s))
              ++ match response opt with
                 | Some r =>
                     match primaryText r with
                     | Some t =>
                         if truthy_s t && negb (audioPlaying s)
                         then [tts_request t (character s)] else []
                     | None => []
                     end
                 | None => []
                 end) as Hd.
    { unfold deliver, applyPoints.
      destruct (response opt) as [r|].
      - rewrite requests_applyResponse. f_equal.
        destruct (points opt); requests_simpl; done.
      - destruct (points opt); requests_simpl; done. }
    rewrite <- Hd. unfold sendOption.
    generalize (deliver tts addr sel opt s s). intros d.
    destruct (5 <=? currentScene (store s)).
    + change (requests (log (window (completeChat mark addr sel d)))
              = requests (log (window d))).
      apply requests_completeChat.
    + requests_simpl. done.
  - rewrite app_nil_r.
    by destruct (handleSend_rejected tts mark s Hopt) as [-> | ->].
Qed.

End ChatComposition.

Section ChatEnding.
Import ChatInterface.
Context `{!Runtime} `{!ChatModules}.

(** ** The end of the conversation *)

(** X9.  When the last send revokes access, the popup flag is raised but
    the popup is not what the user sees.  After an accepted send in
    scene 5 or later, with the token manager initialized and
    [markChatCompleted] returning, [showEndPopup] is true and
    [hasAccess] is false; with a character still selected the component
    therefore renders the access-control screen, of which the end popup
    is no part. *)
Theorem completed_chat_renders_access_screen (tts : TtsOutcome) (s : State)
    (opt : ChatOption) :
  selectedOption s = Some opt →
  5 ≤ currentScene (store s) →
  tokenManager_initialized (window s) = true →
  isCheckingAccess s = false →
  truthy (selectedCharacter (store (handleSend tts Returned s))) = true →
  showEndPopup (handleSend tts Returned s) = true
  ∧ hasAccess (handleSend tts Returned s) = false
  ∧ ∃ c n, render (handleSend tts Returned s) = AccessRequired c n.
Proof.
  intros Hopt Hge Htm Hchk Hsel.
  pose proof (isCheckingAccess_handleSend tts Returned s) as Hchk'.
  rewrite Hchk in Hchk'.
  assert (showEndPopup (handleSend tts Returned s) = true
          ∧ hasAccess (handleSend tts Returned s) = false) as [Hpop Hacc].
  { destruct (handleSend_selected tts Returned s opt Hopt)
      as (addr & sel & _ & _ & _ & Htsel & _ & _ & ->).
    unfold sendOption.
    destruct (deliver_frame tts addr sel opt s s)
      as (_ & _ & _ & Hwin & _).
    revert Hwin. generalize (deliver tts addr sel opt s s). intros d Hwin.
    destruct (Z.leb_spec 5 (currentScene (store s))) as [_ | ?]; [| lia].
    destruct (progress_end_frame Returned addr sel d)
      as (_ & Hpop & _ & _ & _ & _ & _ & Hacc).
    unfold tokenManager_initialized in *. rewrite Hwin, Htm, Htsel in Hacc.
    done. }
  split; [done |]. split; [done |].
  unfold render. rewrite Hchk', Hacc.
  destruct (selectedCharacter (store (handleSend tts Returned s))) as [c|];
    [| done].
  simpl in Hsel. rewrite Hsel. simpl. eauto.
Qed.

Lemma showEndPopup_advance_to (t : Z) (s : State) :
  showEndPopup (advance_to t s) = showEndPopup s.
Proof.
  unfold advance_to. simpl.
  rewrite (foldl_run_callback showEndPopup); [done |]. by intros [].
Qed.

Lemma showEndPopup_handleSend tts mark (s : State) :
  showEndPopup (handleSend tts mark s) = true →
  showEndPopup s = true ∨ ends_chat (SendClicked tts mark) s = true.
Proof.
  unfold ends_chat.
  destruct (selectedOption s) as [opt|] eqn:Hopt.
  - destruct (handleSend_selected tts mark s opt Hopt)
      as (addr & sel & _ & _ & _ & _ & _ & _ & ->).
    unfold sendOption.
    destruct (deliver_frame tts addr sel opt s s)
      as (_ & _ & _ & _ & _ & Hpop & _).
    revert Hpop. generalize (deliver tts addr sel opt s s). intros d Hpop.
    destruct (5 <=? currentScene (store s)); [by right |].
    destruct (progress_below_frame (currentScene (store s)) addr sel d)
      as (_ & _ & _ & _ & -> & _).
    rewrite Hpop. by left.
  - destruct (handleSend_rejected tts mark s Hopt) as [-> | ->]; by left.
Qed.

Lemma showEndPopup_step (e : Event) (s : State) :
  showEndPopup (step e s) = true →
  showEndPopup s = true ∨ ends_chat e s = true.
Proof.
  destruct e; unfold step; try (by left).
  - unfold checkAccess_begin. repeat case_match; by left.
  - unfold checkAccess_settle. repeat case_match; by left.
  - unfold handleAccessChange. repeat case_match; by left.
  - unfold handleChatCompleted. repeat case_match; by left.
  - unfold handlePlayAudio, playAudio.
    destruct (audioPlaying s); [by left |].
    destruct (playAudio_in_frame (character s) false txt o s)
      as (_ & _ & _ & _ & _ & -> & _). by left.
  - apply showEndPopup_handleSend.
  - rewrite showEndPopup_advance_to. by left.
Qed.

(** X10.  The end popup flag is raised by nothing but the last send: in
    every state the component reaches from its mount with
    [showEndPopup] true, the run holds a send that was accepted in scene
    5 or later. *)
Theorem end_popup_needs_the_last_send (st : Store) (addr : option string)
    (w : Window) (es : list Event) :
  showEndPopup (run es (mount st addr w)) = true →
  occurs ends_chat es (mount st addr w).
Proof.
  induction es as [|e es IH] using rev_ind; [done |].
  rewrite run_snoc. intros Hs. apply occurs_snoc.
  destruct (showEndPopup_step _ _ Hs) as [Hprev | Hend]; auto.
Qed.

(** ** Window events *)

(** X11.  The two window events act on the component only when they
    name the selected character.  An event without detail or for
    another character leaves the state as it is; [accessStatusChanged]
    for the selected character sets [hasAccess] to what it carries;
    [chatCompleted] for the selected character revokes access, removes
    the access record of the connected wallet from local storage, and
    (the check being over) puts the access-control screen up. *)
Theorem window_events_act_on_the_selected_character (c : string) (b : bool)
    (s : State) :
  handleAccessChange None s = s
  ∧ handleChatCompleted None s = s
  ∧ (selectedCharacter (store s) ≠ Some c →
     handleAccessChange (Some (c, b)) s = s
     ∧ handleChatCompleted (Some c) s = s)
  ∧ (selectedCharacter (store s) = Some c →
     hasAccess (handleAccessChange (Some (c, b)) s) = b
     ∧ hasAccess (handleChatCompleted (Some c) s) = false
     ∧ (∀ addr, address s = Some addr → addr ≠ EmptyString →
          localStorage (window (handleChatCompleted (Some c) s))
            !! accessKey addr c = None)
     ∧ (c ≠ EmptyString → isCheckingAccess s = false →
        ∃ n, render (handleChatCompleted (Some c) s) = AccessRequired c n)).
Proof.
  split; [done |]. split; [done |]. split.
  - intros Hne. unfold handleAccessChange, handleChatCompleted.
    rewrite bool_decide_eq_false_2 by congruence. done.
  - intros Hsel. unfold handleAccessChange, handleChatCompleted.
    rewrite bool_decide_eq_true_2 by congruence.
    split; [done |]. split; [by repeat case_match |]. split.
    + intros addr -> Haddr.
      assert (truthy_s addr = true) as ->.
      { unfold truthy_s. by apply negb_true_iff, String.eqb_neq. }
      simpl. apply lookup_delete_eq.
    + intros Hc Hchk.
      assert (truthy_s c = true) as Htc.
      { unfold truthy_s. by apply negb_true_iff, String.eqb_neq. }
      assert (∀ s' : State,
                isCheckingAccess s' = false → hasAccess s' = false →
                selectedCharacter (store s') = Some c →
                ∃ n, render s' = AccessRequired c n) as Hscreen.
      { intros s' H1 H2 H3. unfold render. rewrite H1, H2, H3. simpl.
        rewrite Htc. eauto. }
      destruct (address s) as [addr|]; [destruct (truthy_s addr) |];
        by apply Hscreen.
Qed.

(** ** The stored access record *)




(** ** handleEndChat *)

(** X13.  [handleEndChat], with a character selected and a wallet
    connected, ends with access revoked, the popup closed, the router on
    the list of the character's language, and no access record of that
    wallet and character in local storage: the record it has just
    updated is removed by the [chatCompleted] listener it triggers.
    Without a character or a wallet it only closes the popup and goes to
    the root page. *)
Theorem handleEndChat_leaves_no_access_record (s : State) :
  match selectedCharacter (store s), address s with
  | Some sel, Some addr =>
      if truthy_s sel && truthy_s addr then
        hasAccess (handleEndChat s) = false
        ∧ showEndPopup (handleEndChat s) = false
        ∧ localStorage (window (handleEndChat s)) !! accessKey addr sel = None
        ∧ location (window (handleEndChat s)) = "/chat/" +:+ language_path s
      else
        handleEndChat s = in_window (router_push "/") (setShowEndPopup false s)
  | _, _ =>
      handleEndChat s = in_window (router_push "/") (setShowEndPopup false s)
  end.
Proof.
  unfold handleEndChat.
  destruct (selectedCharacter (store s)) as [sel|] eqn:Hsel; [| done].
  destruct (address s) as [addr|] eqn:Haddr; [| done].
  destruct (truthy_s sel && truthy_s addr) eqn:Hboth; [| done].
  apply andb_true_iff in Hboth as [Hts Hta].
  unfold handleChatCompleted.
  repeat case_match; simpl in *;
    rewrite ?Hsel, ?Haddr in *; simplify_eq;
    try (by rewrite bool_decide_eq_true_2 in * by done);
    rewrite ?Hta in *; simplify_eq;
    (repeat split; try done; by rewrite lookup_delete_eq).
Qed.

End ChatEnding.

(** * Further facts about the survey and the pages after it *)

Section SurveyFlow.
Import Survey.
Context `{!Runtime}.

Lemma handleSubmit_while_submitting (b : ApiOutcome) (s : State) :
  isSubmitting s = true → handleSubmit b s = s.
Proof.
  intros Hsub. unfold handleSubmit. by rewrite Hsub, orb_true_r.
Qed.

Lemma handleSubmit_again (a b : ApiOutcome) (s : State) :
  handleSubmit b (handleSubmit a s) = handleSubmit a s.
Proof.
  destruct (negb (truthy (dailyGoal s)) || isSubmitting s) eqn:Hguard.
  - unfold handleSubmit. by rewrite !Hguard.
  - apply handleSubmit_while_submitting.
    apply orb_false_iff in Hguard as [Hgoal Hsub].
    apply negb_false_iff in Hgoal.
    rewrite (handleSubmit_passed a s Hgoal Hsub). simpl.
    destruct (storageAccepts s "lingobabe_survey_data");
      destruct (storageAccepts s "lingobabe_survey_completed");
      by destruct a as [|ok [|]].
Qed.

Lemma survey_callbacks_keep {A : Type} (f : State → A)
    (l : list (Timer Callback)) (s : State) :
  (∀ cb st, f (run_callback cb st) = f st) →
  f (foldl (λ st tm, run_callback (callback tm) st) s l) = f s.
Proof.
  intros Hf. revert s. induction l as [|tm l IH]; intros s; simpl; [done |].
  by rewrite IH, Hf.
Qed.

Lemma showLoadingScreen_advance_to (t : Z) (s : State) :
  showLoadingScreen (advance_to t s) = showLoadingScreen s.
Proof.
  unfold advance_to. simpl.
  rewrite (survey_callbacks_keep showLoadingScreen); [done |]. by intros [].
Qed.

(** X14.  A submission goes out once.  However often [handleSubmit] is
    invoked again on the state a first invocation left, with whatever
    outcomes, nothing further happens: no second request, no second
    write, no second timer.  And once a submission has passed the guard
    the page shows the loading screen, and keeps showing it as time
    passes. *)
Theorem submission_goes_out_once (api : ApiOutcome) (apis : list ApiOutcome)
    (s : State) :
  foldl (λ st a, handleSubmit a st) (handleSubmit api s) apis
  = handleSubmit api s
  ∧ (truthy (dailyGoal s) = true → isSubmitting s = false →
     ChatInterface.requests (log (window (handleSubmit api s)))
     = ChatInterface.requests (log (window s))
       ++ [survey_request (surveyData s)]
     ∧ ∀ t, render (advance_to t (handleSubmit api s)) = LoadingScreen).
Proof.
  split.
  - induction apis as [|a apis IH]; simpl; [done |].
    by rewrite handleSubmit_again.
  - intros Hgoal Hsub. split.
    + rewrite (handleSubmit_passed api s Hgoal Hsub).
      destruct (storageAccepts s "lingobabe_survey_data");
        destruct (storageAccepts s "lingobabe_survey_completed");
        destruct api as [|ok [|]]; simpl;
        rewrite ?requests_app; simpl; by rewrite ?app_nil_r.
    + intros t. unfold render. rewrite showLoadingScreen_advance_to.
      rewrite (handleSubmit_passed api s Hgoal Hsub).
      destruct (storageAccepts s "lingobabe_survey_data");
        destruct (storageAccepts s "lingobabe_survey_completed");
        by destruct api as [|ok [|]].
Qed.

End SurveyFlow.

Section PagesAfterTheSurvey.


(** X16.  'GET STARTED' on the benefits page puts the loading screen up
    at once and takes the router to the language selector once 2000 ms
    have passed; from a page on which nothing is pending, the router
    stays where it is until then. *)
Theorem benefits_continue_reaches_the_selector (s : BenefitsPage.State) :
  BenefitsPage.render (BenefitsPage.handleContinue s)
  = BenefitsPage.LoadingScreen
  ∧ location
      (BenefitsPage.window
         (BenefitsPage.advance_to (clock (BenefitsPage.window s) + 2000)
            (BenefitsPage.handleContinue s)))
    = "/language-selector"
  ∧ (BenefitsPage.timers s = [] →
     ∀ t, t < clock (BenefitsPage.window s) + 2000 →
       location
         (BenefitsPage.window
            (BenefitsPage.advance_to t (BenefitsPage.handleContinue s)))
       = location (BenefitsPage.window s)
       ∧ BenefitsPage.render
           (BenefitsPage.advance_to t (BenefitsPage.handleContinue s))
         = BenefitsPage.LoadingScreen).
Proof.
  split; [done |]. split.
  - unfold BenefitsPage.advance_to, BenefitsPage.handleContinue. simpl.
    rewrite due_timers_last by done. by rewrite foldl_app.
  - intros Hnone t Ht.
    unfold BenefitsPage.advance_to, BenefitsPage.handleContinue. simpl.
    rewrite due_timers_not_yet by (simpl; lia). by rewrite Hnone.
Qed.

End PagesAfterTheSurvey.

(** * The further properties on concrete inputs *)

Section FurtherExamples.
Import ChatInterface Examples.



(** X8 on an input: audio that starts playing. *)
Lemma one_audio_request_at_a_time_witness :
  audioPlaying (playAudio "ni hao" PlayStarted (chatting ready 1 EmptyString))
  = true
  ∧ handlePlayAudio "ni hao ma" FetchRejected
      (playAudio "ni hao" PlayStarted (chatting ready 1 EmptyString))
    = playAudio "ni hao" PlayStarted (chatting ready 1 EmptyString).
Proof.
  destruct (one_audio_request_at_a_time "ni hao" PlayStarted
              (chatting ready 1 EmptyString))
    as (Hplaying & _ & Hsame & _); [discriminate | reflexivity |].
  split; [exact Hplaying | apply Hsame].
Defined.

(** X9 on an input: the last send with the token manager ready. *)
Lemma completed_chat_renders_access_screen_witness :
  showEndPopup (handleSend PlayStarted Returned (chatting ready 5 "ni hao"))
  = true
  ∧ hasAccess (handleSend PlayStarted Returned (chatting ready 5 "ni hao"))
    = false
  ∧ ∃ c n, render (handleSend PlayStarted Returned (chatting ready 5 "ni hao"))
           = AccessRequired c n.
Proof.
  apply (completed_chat_renders_access_screen PlayStarted
           (chatting ready 5 "ni hao") greet);
    vm_compute; first [reflexivity | discriminate].
Defined.

(** X10 on a run: the popup flag after the last send. *)
Lemma end_popup_needs_the_last_send_witness :
  showEndPopup (run last_send_run (mount (store_at 5) (Some wallet)
                                     (window0 None))) = true
  ∧ occurs ends_chat last_send_run
      (mount (store_at 5) (Some wallet) (window0 None)).
Proof.
  split; [vm_compute; reflexivity |].
  apply (end_popup_needs_the_last_send (store_at 5) (Some wallet)
           (window0 None) last_send_run).
  vm_compute. reflexivity.
Defined.


End FurtherExamples.
